(** * Cinevault: the request-governance layer, embedded and verified

    A shallow embedding of the Go sources of the cinevault API server:
    the [validator] and [data] packages and the middleware, handlers and
    server loop of [cmd/api].  Go packages become modules; structs become
    records; [(value, error)] results become [result]; handlers become
    functions over an explicit [World] that records, in order, every
    collaborator call and every response written. *)

From Stdlib Require Import ZArith QArith Qcanon String Ascii List Bool Lia.
From stdpp Require Import gmap strings list numbers.

Local Open Scope Z_scope.

(** ** Go's [error] values

    The sentinel errors of packages [data], [database/sql] and [net/http]
    are constructors; every other error is [ErrOther] with its message. *)
Inductive error :=
| ErrRecordNotFound
| ErrEditConflict
| ErrDuplicateEmail
| sql_ErrNoRows
| http_ErrServerClosed
| ErrOther (msg : string).

Global Instance error_eq_dec : EqDecision error.
Proof. solve_decision. Defined.

(** [errors.Is err target] for sentinel targets: identity of the value. *)
Definition errors_Is (err target : error) : bool := bool_decide (err = target).

(** [err.Error()]. *)
Definition Error (err : error) : string :=
  match err with
  | ErrRecordNotFound => "record not found"
  | ErrEditConflict => "edit conflict"
  | ErrDuplicateEmail => "duplicate email"
  | sql_ErrNoRows => "sql: no rows in result set"
  | http_ErrServerClosed => "http: Server closed"
  | ErrOther msg => msg
  end.

(** A Go [(T, error)] result. *)
Inductive result (A : Type) :=
| Ok (a : A)
| Err (e : error).
Arguments Ok {A} a.
Arguments Err {A} e.

(** [strings.Split(s, sep)] for a one-byte separator: n separators give
    n+1 parts, the empty string gives one empty part. *)
Fixpoint strings_Split (s : string) (sep : ascii) : list string :=
  match s with
  | EmptyString => [EmptyString]
  | String c rest =>
      if Ascii.eqb c sep then EmptyString :: strings_Split rest sep
      else match strings_Split rest sep with
           | part :: parts => String c part :: parts
           | [] => [String c EmptyString]
           end
  end.

(** [len(s)]: the number of bytes. *)
Definition len (s : string) : Z := Z.of_nat (String.length s).

(** ** More of Go's library: [strings], [strconv], [encoding/base32] *)

(** [strings.HasPrefix(s, prefix)] *)
Fixpoint strings_HasPrefix (s prefix : string) : bool :=
  match prefix, s with
  | EmptyString, _ => true
  | String p prefix', String c s' => Ascii.eqb c p && strings_HasPrefix s' prefix'
  | String _ _, EmptyString => false
  end.

(** [strings.TrimPrefix(s, prefix)]: [s] without the prefix when it has
    it, [s] itself otherwise. *)
Definition strings_TrimPrefix (s prefix : string) : string :=
  if strings_HasPrefix s prefix
  then String.substring (String.length prefix)
         (String.length s - String.length prefix) s
  else s.

Module strconv.

Definition ErrSyntax : error := ErrOther "invalid syntax".
Definition ErrRange : error := ErrOther "value out of range".

(** The decimal digit [d], 0 to 9, as a byte. *)
Definition digitChar (d : Z) : ascii := Ascii.ascii_of_nat (48 + Z.to_nat d).

(** The value of a byte that is a decimal digit. *)
Definition digitValue (c : ascii) : option Z :=
  let n := Z.of_nat (Ascii.nat_of_ascii c) in
  if (48 <=? n) && (n <=? 57) then Some (n - 48) else None.

(** The digits of [n >= 0], most significant first, before [acc]. *)
Fixpoint formatDigits (fuel : nat) (n : Z) (acc : string) : string :=
  match fuel with
  | O => acc
  | S fuel' =>
      let acc := String (digitChar (n mod 10)) acc in
      if n <? 10 then acc else formatDigits fuel' (n / 10) acc
  end.

(** [strconv.FormatInt(i, 10)], which is what the verb [%d] prints. *)
Definition FormatInt (i : Z) : string :=
  let u := Z.abs i in
  let digits := formatDigits (S (Z.to_nat (Z.log2 u))) u EmptyString in
  if i <? 0 then String "-" digits else digits.

(** The loop of [strconv.ParseUint] in base 10: every byte must be a
    digit (no underscores in an explicit base). *)
Fixpoint parseDigits (s : string) (acc : Z) : option Z :=
  match s with
  | EmptyString => Some acc
  | String c rest =>
      match digitValue c with
      | Some d => parseDigits rest (acc * 10 + d)
      | None => None
      end
  end.

(** [strconv.ParseInt(s, 10, bitSize)], for a [bitSize] from 1 to 64: an
    optional sign, then at least one digit and nothing but digits; a
    value outside the [bitSize]-bit signed range is a range error. *)
Definition ParseInt (s : string) (bitSize : Z) : result Z :=
  match s with
  | EmptyString => Err ErrSyntax
  | String c rest =>
      let neg := Ascii.eqb c "-" in
      let digits := if Ascii.eqb c "+" || Ascii.eqb c "-" then rest else s in
      match digits with
      | EmptyString => Err ErrSyntax
      | _ =>
          match parseDigits digits 0 with
          | None => Err ErrSyntax
          | Some un =>
              let cutoff := 2 ^ (bitSize - 1) in
              if negb neg && (cutoff <=? un) then Err ErrRange
              else if neg && (cutoff <? un) then Err ErrRange
              else Ok (if neg then - un else un)
          end
      end
  end.

(** The byte of a double quote, and of a backslash. *)
Definition quoteByte : ascii := Ascii.ascii_of_nat 34.
Definition backslashByte : ascii := Ascii.ascii_of_nat 92.

(** The bytes [strconv.Quote] copies as they are: printable ASCII other
    than the double quote and the backslash. *)
Definition plainByte (c : ascii) : bool :=
  let n := Ascii.nat_of_ascii c in
  (32 <=? n)%nat && (n <=? 126)%nat
  && negb (Ascii.eqb c quoteByte) && negb (Ascii.eqb c backslashByte).

Fixpoint plain (s : string) : bool :=
  match s with
  | EmptyString => true
  | String c rest => plainByte c && plain rest
  end.

(** [strconv.Quote(s)] for a string of plain bytes: the string between
    double quotes.  [None]: the string has a byte that [Quote] escapes,
    which is outside this model. *)
Definition Quote (s : string) : option string :=
  if plain s then Some (String quoteByte (s +:+ String quoteByte EmptyString))
  else None.

(** The last byte of a string and what stands before it. *)
Fixpoint splitLast (s : string) : option (string * ascii) :=
  match s with
  | EmptyString => None
  | String c EmptyString => Some (EmptyString, c)
  | String c rest =>
      match splitLast rest with
      | Some (init, l) => Some (String c init, l)
      | None => None
      end
  end.

(** [strconv.Unquote(s)].  A string of fewer than two bytes, or whose
    first and last bytes differ, or whose first byte is no quote
    character, is a syntax error; a double-quoted string of plain bytes
    is its inside.  [None]: a back-quoted or single-quoted string, or one
    with escapes, which is outside this model. *)
Definition Unquote (s : string) : option (result string) :=
  match s with
  | EmptyString => Some (Err ErrSyntax)
  | String q rest =>
      match splitLast rest with
      | None => Some (Err ErrSyntax)
      | Some (inside, l) =>
          if negb (Ascii.eqb q l) then Some (Err ErrSyntax)
          else if Ascii.eqb q quoteByte then
            if plain inside then Some (Ok inside) else None
          else if Ascii.eqb q "`" || Ascii.eqb q "'" then None
          else Some (Err ErrSyntax)
      end
  end.

End strconv.

Module base32.

(** [base32.StdEncoding]'s alphabet. *)
Definition encodeStd : string := "ABCDEFGHIJKLMNOPQRSTUVWXYZ234567".

(** The character of a five-bit group. *)
Definition encode (group : Z) : ascii :=
  match String.get (Z.to_nat (Z.land group 31)) encodeStd with
  | Some c => c
  | None => "A"%char
  end.

(** [StdEncoding.WithPadding(NoPadding).EncodeToString(src)]: every five
    bytes give eight characters; one to four bytes left over give two,
    four, five or seven.  Bytes are integers from 0 to 255. *)
Fixpoint EncodeToString (src : list Z) : string :=
  let c0 b0 := encode (Z.shiftr b0 3) in
  let c1 b0 b1 := encode (Z.lor (Z.shiftl b0 2) (Z.shiftr b1 6)) in
  let c2 b1 := encode (Z.shiftr b1 1) in
  let c3 b1 b2 := encode (Z.lor (Z.shiftl b1 4) (Z.shiftr b2 4)) in
  let c4 b2 b3 := encode (Z.lor (Z.shiftl b2 1) (Z.shiftr b3 7)) in
  let c5 b3 := encode (Z.shiftr b3 2) in
  let c6 b3 b4 := encode (Z.lor (Z.shiftl b3 3) (Z.shiftr b4 5)) in
  let c7 b4 := encode b4 in
  match src with
  | [] => EmptyString
  | [b0] => String (c0 b0) (String (c1 b0 0) EmptyString)
  | [b0; b1] =>
      String (c0 b0) (String (c1 b0 b1) (String (c2 b1) (String (c3 b1 0) EmptyString)))
  | [b0; b1; b2] =>
      String (c0 b0) (String (c1 b0 b1) (String (c2 b1) (String (c3 b1 b2)
        (String (c4 b2 0) EmptyString))))
  | [b0; b1; b2; b3] =>
      String (c0 b0) (String (c1 b0 b1) (String (c2 b1) (String (c3 b1 b2)
        (String (c4 b2 b3) (String (c5 b3) (String (c6 b3 0) EmptyString))))))
  | b0 :: b1 :: b2 :: b3 :: b4 :: rest =>
      String (c0 b0) (String (c1 b0 b1) (String (c2 b1) (String (c3 b1 b2)
        (String (c4 b2 b3) (String (c5 b3) (String (c6 b3 b4) (String (c7 b4)
          (EncodeToString rest))))))))
  end.

End base32.

(** ** Go's fixed-width integers and panics *)

(** The value a [bits]-bit signed integer holds after an operation whose
    exact result is [z]: two's complement wrap-around. *)
Definition wrapInt (bits : Z) (z : Z) : Z :=
  (z + 2 ^ (bits - 1)) mod 2 ^ bits - 2 ^ (bits - 1).

(** A call that returns a value or panics with a message. *)
Inductive orPanic (A : Type) :=
| Returned (a : A)
| Panicked (msg : string).
Arguments Returned {A} a.
Arguments Panicked {A} msg.

(** ** Package [validator] *)
Module validator.

Record Validator := { Errors : gmap string string }.

Definition New : Validator := {| Errors := ∅ |}.

Definition Valid (v : Validator) : bool :=
  Nat.eqb (size (Errors v)) 0.

Definition AddError (v : Validator) (key message : string) : Validator :=
  match Errors v !! key with
  | Some _ => v
  | None => {| Errors := <[key := message]> (Errors v) |}
  end.

Definition Check (v : Validator) (ok : bool) (key message : string) : Validator :=
  if negb ok then AddError v key message else v.

(** [Unique]: the slice has as many elements as the set of its values. *)
Definition Unique (values : list string) : bool :=
  Nat.eqb (length values) (size (list_to_set values : gset string)).

(** [In]: the value is one of the list. *)
Fixpoint In (value : string) (list : list string) : bool :=
  match list with
  | [] => false
  | x :: rest => if String.eqb value x then true else In value rest
  end.

End validator.

(** ** Package [data] *)
Module data.

Definition ScopeActivation : string := "activation".
Definition ScopeAuthentication : string := "authentication".
Definition ScopePasswordReset : string := "password-reset".

(** *** users.go *)
Record password := { plaintext : option string; hash : option string }.

Record User := {
  ID : Z;
  CreatedAt : Z;
  Name : string;
  Email : string;
  Password : password;
  Activated : bool;
  Version : Z
}.

(** [&User{}]: every field at its zero value. *)
Definition zeroUser : User :=
  {| ID := 0; CreatedAt := 0; Name := ""; Email := "";
     Password := {| plaintext := None; hash := None |};
     Activated := false; Version := 0 |}.

(** Users are handled through [*User] pointers.  A pointer is an index
    into the heap of allocated [User] structs; the package-level
    [var AnonymousUser = &User{}] is the first allocation. *)
Definition ptr := nat.
Definition Heap := list User.

Definition AnonymousUser : ptr := 0%nat.
Definition initHeap : Heap := [zeroUser].

(** [&user] for a fresh local [user]: a new cell. *)
Definition alloc (u : User) (h : Heap) : ptr * Heap := (length h, h ++ [u]).

(** [func (u *User) IsAnonymous() bool { return u == AnonymousUser }] *)
Definition IsAnonymous (u : ptr) : bool := Nat.eqb u AnonymousUser.

(** The double-quote byte, for messages that contain one. *)
Definition dquote : string := String (Ascii.ascii_of_nat 34) EmptyString.

Definition duplicateEmailMessage : string :=
  "pq: duplicate key value violates unique constraint " +:+ dquote
    +:+ "users_email_key" +:+ dquote.

(** The statement of [UserModel.Update], run by the storage engine:
    [UPDATE users SET name = $1, email = $2, password_hash = $3,
     activated = $4, version = version + 1
     WHERE id = $5 AND version = $6 RETURNING version].
    [fault] is a failure of the engine itself (time-out, constraint
    violation, a version out of the column's range, ...): the statement
    then changes nothing. *)
Definition UserModel_Update_query (fault : option error) (user : User)
    (users : gmap Z User) : gmap Z User * result Z :=
  match fault with
  | Some e => (users, Err e)
  | None =>
      match users !! ID user with
      | Some row =>
          if Version row =? Version user then
            let row' := {| ID := ID row; CreatedAt := CreatedAt row;
                           Name := Name user; Email := Email user;
                           Password := {| plaintext := None;
                                          hash := hash (Password user) |};
                           Activated := Activated user;
                           Version := Version row + 1 |} in
            (<[ID user := row']> users, Ok (Version row'))
          else (users, Err sql_ErrNoRows)
      | None => (users, Err sql_ErrNoRows)
      end
  end.

(** [UserModel.Update]: [Scan(&user.Version)] stores the returned
    version in the caller's struct. *)
Definition UserModel_Update (fault : option error) (user : User)
    (users : gmap Z User) : gmap Z User * User * option error :=
  match UserModel_Update_query fault user users with
  | (users', Ok v) =>
      (users',
       {| ID := ID user; CreatedAt := CreatedAt user; Name := Name user;
          Email := Email user; Password := Password user;
          Activated := Activated user; Version := v |},
       None)
  | (users', Err err) =>
      (users', user,
       Some (if String.eqb (Error err) duplicateEmailMessage then ErrDuplicateEmail
             else if errors_Is err sql_ErrNoRows then ErrEditConflict
             else err))
  end.

(** *** movies.go

    The fields [ID], [CreatedAt] and [Version] of [Movie] carry the
    struct's name here, [User] having fields of the same names. *)
Record Movie := {
  MovieID : Z;
  MovieCreatedAt : Z;
  Title : string;
  Year : Z;
  Runtime : Z;
  Genres : option (list string);      (* [None] is the nil slice *)
  MovieVersion : Z
}.

Definition lenGenres (g : option (list string)) : Z :=
  match g with None => 0 | Some l => Z.of_nat (length l) end.

Definition Check := validator.Check.

(** [ValidateMovie]; [nowYear] is [time.Now().Year()]. *)
Definition ValidateMovie (nowYear : Z) (v : validator.Validator) (movie : Movie)
  : validator.Validator :=
  let v := Check v (negb (String.eqb (Title movie) "")) "title" "must be provided" in
  let v := Check v (len (Title movie) <=? 500) "title" "must not be more than 500 bytes long" in
  let v := Check v (negb (Year movie =? 0)) "year" "must be provided" in
  let v := Check v (Year movie >=? 1888) "year" "must be greater than 1888" in
  let v := Check v (Year movie <=? nowYear) "year" "must not be in the future" in
  let v := Check v (negb (Runtime movie =? 0)) "runtime" "must be provided" in
  let v := Check v (Runtime movie >? 0) "runtime" "must be a positive integer" in
  let v := Check v (bool_decide (Genres movie ≠ None)) "genres" "must be provided" in
  let v := Check v (lenGenres (Genres movie) >=? 1) "genres" "must contain at least 1 genre" in
  let v := Check v (lenGenres (Genres movie) <=? 5) "genres" "must not contain more than 5 genres" in
  Check v (validator.Unique (default [] (Genres movie))) "genres" "must not contain duplicate values".

(** [MovieModel.Get]: [SELECT ... FROM movies WHERE id = $1]. *)
Definition MovieModel_Get (fault : option error) (id : Z) (movies : gmap Z Movie)
  : result Movie :=
  if id <? 1 then Err ErrRecordNotFound
  else
    let row := match fault with
               | Some e => Err e
               | None => match movies !! id with
                         | Some m => Ok m
                         | None => Err sql_ErrNoRows
                         end
               end in
    match row with
    | Ok m => Ok m
    | Err err => if errors_Is err sql_ErrNoRows then Err ErrRecordNotFound else Err err
    end.

(** The statement of [MovieModel.Update]:
    [UPDATE movies SET title = $1, year = $2, runtime = $3, genres = $4,
     version = version + 1 WHERE id = $5 AND version = $6
     RETURNING version]. *)
Definition MovieModel_Update_query (fault : option error) (movie : Movie)
    (movies : gmap Z Movie) : gmap Z Movie * result Z :=
  match fault with
  | Some e => (movies, Err e)
  | None =>
      match movies !! MovieID movie with
      | Some row =>
          if MovieVersion row =? MovieVersion movie then
            let row' := {| MovieID := MovieID row;
                           MovieCreatedAt := MovieCreatedAt row;
                           Title := Title movie; Year := Year movie;
                           Runtime := Runtime movie; Genres := Genres movie;
                           MovieVersion := MovieVersion row + 1 |} in
            (<[MovieID movie := row']> movies, Ok (MovieVersion row'))
          else (movies, Err sql_ErrNoRows)
      | None => (movies, Err sql_ErrNoRows)
      end
  end.

(** [MovieModel.Update]. *)
Definition MovieModel_Update (fault : option error) (movie : Movie)
    (movies : gmap Z Movie) : gmap Z Movie * Movie * option error :=
  match MovieModel_Update_query fault movie movies with
  | (movies', Ok v) =>
      (movies',
       {| MovieID := MovieID movie; MovieCreatedAt := MovieCreatedAt movie;
          Title := Title movie; Year := Year movie; Runtime := Runtime movie;
          Genres := Genres movie; MovieVersion := v |},
       None)
  | (movies', Err err) =>
      (movies', movie,
       Some (if errors_Is err sql_ErrNoRows then ErrEditConflict else err))
  end.

(** *** tokens.go *)
(** [ValidateTokenPlaintext] *)
Definition ValidateTokenPlaintext (v : validator.Validator) (tokenPlaintext : string)
  : validator.Validator :=
  let v := validator.Check v (negb (String.eqb tokenPlaintext "")) "token" "must be provided" in
  validator.Check v (len tokenPlaintext =? 26) "token" "must be 26 bytes long".

(** The alphabet of [base32.StdEncoding], which [generateToken] draws
    plaintext tokens from. *)
Definition base32Alphabet : string := "ABCDEFGHIJKLMNOPQRSTUVWXYZ234567".

Fixpoint inAlphabet (c : ascii) (alphabet : string) : bool :=
  match alphabet with
  | EmptyString => false
  | String a rest => Ascii.eqb c a || inAlphabet c rest
  end.

Fixpoint allInAlphabet (s : string) (alphabet : string) : bool :=
  match s with
  | EmptyString => true
  | String c rest => inAlphabet c alphabet && allInAlphabet rest alphabet
  end.

(** [Permissions] and [Include]. *)
Definition Permissions := list string.

Fixpoint Include (p : Permissions) (code : string) : bool :=
  match p with
  | [] => false
  | c :: rest => if String.eqb code c then true else Include rest code
  end.

(** *** movies.go: [Delete] *)

(** [MovieModel.Delete]: [DELETE FROM movies WHERE id = $1], then the
    number of rows affected. *)
Definition MovieModel_Delete (fault : option error) (id : Z) (movies : gmap Z Movie)
  : gmap Z Movie * option error :=
  if id <? 1 then (movies, Some ErrRecordNotFound)
  else
    match fault with
    | Some e => (movies, Some e)
    | None =>
        let rowsAffected := match movies !! id with Some _ => 1 | None => 0 end in
        let movies := delete id movies in
        if rowsAffected =? 0 then (movies, Some ErrRecordNotFound)
        else (movies, None)
    end.

(** *** users.go: [ValidatePasswordPlaintext] *)
Definition ValidatePasswordPlaintext (v : validator.Validator) (password : string)
  : validator.Validator :=
  let v := Check v (negb (String.eqb password "")) "password" "must be provided" in
  let v := Check v (len password >=? 8) "password" "must be at least 8 bytes long" in
  Check v (len password <=? 72) "password" "must not be more than 72 bytes long".

(** *** filters.go *)
Record Filters := {
  Page : Z;
  PageSize : Z;
  Sort : string;
  SortSafelist : list string
}.

(** [sortColumn]: the sort value without its [-], when the safelist has
    the value; a panic otherwise. *)
Definition sortColumn (f : Filters) : orPanic string :=
  (fix loop (safelist : list string) : orPanic string :=
     match safelist with
     | [] => Panicked ("unsafe sort parameter: " +:+ Sort f)
     | safeValue :: rest =>
         if String.eqb (Sort f) safeValue
         then Returned (strings_TrimPrefix (Sort f) "-")
         else loop rest
     end) (SortSafelist f).

Definition sortDirection (f : Filters) : string :=
  if strings_HasPrefix (Sort f) "-" then "DESC" else "ASC".

Definition ValidateFilters (v : validator.Validator) (f : Filters) : validator.Validator :=
  let v := Check v (Page f >? 0) "page" "must be greater than zero" in
  let v := Check v (Page f <=? 10000000) "page" "must be a maximum of 10 million" in
  let v := Check v (PageSize f >? 0) "page_size" "must be greater than zero" in
  let v := Check v (PageSize f <=? 100) "page_size" "must be a maximum of 100" in
  Check v (validator.In (Sort f) (SortSafelist f)) "sort" "invalid sort value".

Definition limit (f : Filters) : Z := PageSize f.

(** [offset]: [(f.Page - 1) * f.PageSize] in [int], which is [bits] wide. *)
Definition offset (bits : Z) (f : Filters) : Z :=
  wrapInt bits (wrapInt bits (Page f - 1) * PageSize f).

(** *** tokens.go: [generateToken] *)
Record Token := {
  Plaintext : string;
  Hash : string;
  UserID : Z;
  Expiry : Z;
  Scope : string
}.

(** [generateToken]: [randRead] is what [rand.Read] gives for the
    16-byte slice (the bytes, or its error), [sha256] the hash function
    and [now] the clock. *)
Definition generateToken (randRead : result (list Z)) (sha256 : string -> string)
    (now : Z) (userID : Z) (ttl : Z) (scope : string) : result Token :=
  match randRead with
  | Err err => Err err
  | Ok randomBytes =>
      let plaintext := base32.EncodeToString randomBytes in
      Ok {| Plaintext := plaintext; Hash := sha256 plaintext; UserID := userID;
            Expiry := now + ttl; Scope := scope |}
  end.

(** *** runtime.go *)
Definition ErrInvalidRuntimeFormat : error := ErrOther "invalid runtime format".

(** [Runtime.MarshalJSON]: the quoted string [<number> mins].  [None]
    stands for a string that the model of [strconv.Quote] leaves out. *)
Definition Runtime_MarshalJSON (r : Z) : option string :=
  let jsonValue := strconv.FormatInt r +:+ " mins" in
  strconv.Quote jsonValue.

(** [Runtime.UnmarshalJSON]: the runtime read, or the error.  [None]
    stands for an input that the model of [strconv.Unquote] leaves out. *)
Definition Runtime_UnmarshalJSON (jsonValue : string) : option (result Z) :=
  match strconv.Unquote jsonValue with
  | None => None
  | Some (Err _) => Some (Err ErrInvalidRuntimeFormat)
  | Some (Ok unquotedJSONValue) =>
      let parts := strings_Split unquotedJSONValue " " in
      if negb (Nat.eqb (length parts) 2)
         || negb (String.eqb (nth 1 parts "") "mins") then
        Some (Err ErrInvalidRuntimeFormat)
      else
        match strconv.ParseInt (nth 0 parts "") 32 with
        | Err _ => Some (Err ErrInvalidRuntimeFormat)
        | Ok i => Some (Ok i)
        end
  end.

End data.

(** ** Time

    A [time.Time] is a number of nanoseconds on the process's clock and a
    [time.Duration] a number of nanoseconds. *)
Definition time_Second : Z := 1000000000.
Definition time_Minute : Z := 60 * time_Second.

(** [time.Since(t)], read when the clock shows [now]. *)
Definition time_Since (now t : Z) : Z := now - t.

(** ** The token bucket of [golang.org/x/time/rate] *)
Module rate.

(** Modelled from the spec: the token-bucket limiter state of a
    ClientEntry (capacity, refill rate, current tokens, last-refill time);
    the limiter library is not among the sources.  Tokens are exact
    rationals. *)
Record Limiter := {
  limit : Qc;        (* tokens per second *)
  burst : Z;         (* capacity *)
  tokens : Qc;
  last : Z           (* time of the last refill *)
}.

(** Modelled from the spec: a fresh token bucket, of sustained rate [r]
    and burst capacity [b], is full. *)
Definition NewLimiter (r : Qc) (b : Z) : Limiter :=
  {| limit := r; burst := b; tokens := Qc_of_Z b; last := 0 |}.

(** Modelled from the spec: the tokens in the bucket at time [t], refilled
    at the fixed rate since the last refill and never above the capacity. *)
Definition advance (lim : Limiter) (t : Z) : Qc :=
  let elapsed := Z.max 0 (t - last lim) in
  let refilled :=
    (tokens lim + Qc_of_Z elapsed / Qc_of_Z time_Second * limit lim)%Qc in
  if decide (Qc_of_Z (burst lim) < refilled)%Qc then Qc_of_Z (burst lim)
  else refilled.

(** Modelled from the spec: consume one token if one is available and
    allow; otherwise deny, without side effects. *)
Definition Allow (t : Z) (lim : Limiter) : bool * Limiter :=
  let available := advance lim t in
  if decide (1 ≤ available)%Qc then
    (true, {| limit := limit lim; burst := burst lim;
              tokens := (available - 1)%Qc; last := t |})
  else (false, lim).

End rate.

(** ** Package [main] (cmd/api): responses, middleware and handlers *)
Module api.
Import data.

(** What a handler does that is visible outside it, in order. *)
Inductive body :=
| Message (text : string)
| ValidationErrors (errors : gmap string string)
| MovieBody (movie : Movie).

Inductive event :=
| EvHeaderSet (key value : string)        (* w.Header().Set *)
| EvLogError (err : error)                (* app.logger.PrintError *)
| EvWriteJSON (status : Z) (payload : body)
| EvGetForToken (tokenScope tokenPlaintext : string)
| EvGetAllForUser (userID : Z)
| EvMoviesGet (id : Z)
| EvMoviesUpdate (id version : Z)
| EvServed (handler : string)             (* a business handler ran *)
| EvPanic (msg : string).

(** The collaborators behind [app.models] that the middleware calls:
    what the storage engine answers to each query. *)
Record Models := {
  Users_GetForToken : string -> string -> result User;
  Permissions_GetAllForUser : Z -> result Permissions
}.

Record limiterConfig := { enabled : bool; rps : Qc; burst : Z }.

Record config := { limiter : limiterConfig }.

Record application := { cfg : config; models : Models }.

Record Request := {
  Header : gmap string string;
  RemoteIP : string;                 (* realip.FromRequest(r) *)
  ctxUser : option ptr               (* the user value of the request context *)
}.

(** An entry of [rateLimit]'s registry. *)
Record client := { limiter_ : rate.Limiter; lastSeen : Z }.

Record World := {
  now : Z;                           (* time.Now() *)
  heap : Heap;
  clients : gmap string client;      (* the map guarded by [mu] in rateLimit *)
  movies : gmap Z Movie;             (* the movies table *)
  trace : list event
}.

Definition HandlerFunc := Request -> World -> World.

Definition emit (e : event) (w : World) : World :=
  {| now := now w; heap := heap w; clients := clients w; movies := movies w;
     trace := trace w ++ [e] |}.

Definition setHeap (h : Heap) (w : World) : World :=
  {| now := now w; heap := h; clients := clients w; movies := movies w;
     trace := trace w |}.

Definition setClients (cs : gmap string client) (w : World) : World :=
  {| now := now w; heap := heap w; clients := cs; movies := movies w;
     trace := trace w |}.

Definition setMovies (ms : gmap Z Movie) (w : World) : World :=
  {| now := now w; heap := heap w; clients := clients w; movies := ms;
     trace := trace w |}.

(** [r.Header.Get(key)]: the empty string when the header is absent. *)
Definition Header_Get (r : Request) (key : string) : string :=
  default "" (Header r !! key).

(** Modelled from the spec: the request-scoped Principal that
    PrincipalResolver attaches to a request (the context helpers are not
    among the sources).  [contextSetUser] stores the pointer in the
    request's context. *)
Definition contextSetUser (r : Request) (user : ptr) : Request :=
  {| Header := Header r; RemoteIP := RemoteIP r; ctxUser := Some user |}.

(** Modelled from the spec: [contextGetUser] returns the Principal of the
    request; [None] is the panic of a request that carries none. *)
Definition contextGetUser (r : Request) : option ptr := ctxUser r.

Definition missingUserPanic : event :=
  EvPanic "missing user value in request context".

Definition nilDereferencePanic : event :=
  EvPanic "runtime error: invalid memory address or nil pointer dereference".

(** *** errors.go *)
Definition http_StatusOK : Z := 200.
Definition http_StatusBadRequest : Z := 400.
Definition http_StatusUnauthorized : Z := 401.
Definition http_StatusForbidden : Z := 403.
Definition http_StatusNotFound : Z := 404.
Definition http_StatusConflict : Z := 409.
Definition http_StatusUnprocessableEntity : Z := 422.
Definition http_StatusTooManyRequests : Z := 429.
Definition http_StatusInternalServerError : Z := 500.

Definition errorResponse (status : Z) (message : body) : HandlerFunc :=
  fun r w => emit (EvWriteJSON status message) w.

Definition serverErrorResponse (err : error) : HandlerFunc :=
  fun r w =>
    let w := emit (EvLogError err) w in
    errorResponse http_StatusInternalServerError
      (Message "the server encountered a problem and could not process your request") r w.

Definition notFoundResponse : HandlerFunc :=
  errorResponse http_StatusNotFound (Message "the requested resource could not be found").

Definition badRequestResponse (err : error) : HandlerFunc :=
  errorResponse http_StatusBadRequest (Message (Error err)).

Definition failedValidationResponse (errors : gmap string string) : HandlerFunc :=
  errorResponse http_StatusUnprocessableEntity (ValidationErrors errors).

Definition editConflictResponse : HandlerFunc :=
  errorResponse http_StatusConflict
    (Message "unable to update the record due to an edit conflict, please try again").

Definition rateLimitExceededResponse : HandlerFunc :=
  errorResponse http_StatusTooManyRequests (Message "rate limit exceeded").

Definition invalidAuthenticationTokenResponse : HandlerFunc :=
  fun r w =>
    let w := emit (EvHeaderSet "WWW-Authenticate" "Bearer") w in
    errorResponse http_StatusUnauthorized
      (Message "invalid or missing authentication token") r w.

Definition authenticationRequiredResponse : HandlerFunc :=
  errorResponse http_StatusUnauthorized
    (Message "you must be authenticated to access this resource").

Definition inactiveAccountResponse : HandlerFunc :=
  errorResponse http_StatusForbidden
    (Message "your user account must be activated to access this resource").

Definition notPermittedResponse : HandlerFunc :=
  errorResponse http_StatusForbidden
    (Message "your user account doesn't have the necessary permissions to access this resource").

(** *** middleware: [rateLimit]

    The sweep that the cleanup goroutine runs, holding [mu], each time
    its one-minute sleep ends: [now] is the clock at that tick. *)
Definition sweep (now : Z) (clients : gmap string client) : gmap string client :=
  filter (fun entry => ¬ (time_Since now (lastSeen entry.2) > 3 * time_Minute)) clients.

Definition cleanupTick (w : World) : World :=
  setClients (sweep (now w) (clients w)) w.

(** The handler; one reading of the clock serves both [time.Now()] and
    the limiter's [Allow()]. *)
Definition rateLimit (app : application) (next : HandlerFunc) : HandlerFunc :=
  fun r w =>
    if enabled (limiter (cfg app)) then
      let ip := RemoteIP r in
      let cs := clients w in
      let cs := match cs !! ip with
                | Some _ => cs
                | None =>
                    <[ip := {| limiter_ := rate.NewLimiter (rps (limiter (cfg app)))
                                             (burst (limiter (cfg app)));
                               lastSeen := 0 |}]> cs
                end in
      let cs := alter (fun c => {| limiter_ := limiter_ c; lastSeen := now w |}) ip cs in
      match cs !! ip with
      | None => emit nilDereferencePanic (setClients cs w)
      | Some c =>
          let (allowed, lim) := rate.Allow (now w) (limiter_ c) in
          let cs := <[ip := {| limiter_ := lim; lastSeen := lastSeen c |}]> cs in
          let w := setClients cs w in
          if negb allowed then rateLimitExceededResponse r w
          else next r w
      end
    else next r w.

(** *** middleware: [authenticate] *)
Definition authenticate (app : application) (next : HandlerFunc) : HandlerFunc :=
  fun r w =>
    let w := emit (EvHeaderSet "Vary" "Authorization") w in
    let authorizationHeader := Header_Get r "Authorization" in
    if String.eqb authorizationHeader "" then
      let r := contextSetUser r AnonymousUser in
      next r w
    else
      let headerParts := strings_Split authorizationHeader " " in
      if negb (Nat.eqb (length headerParts) 2)
         || negb (String.eqb (nth 0 headerParts "") "Bearer") then
        invalidAuthenticationTokenResponse r w
      else
        let token := nth 1 headerParts "" in
        let v := validator.New in
        let v := ValidateTokenPlaintext v token in
        if negb (validator.Valid v) then
          invalidAuthenticationTokenResponse r w
        else
          let w := emit (EvGetForToken ScopeAuthentication token) w in
          match Users_GetForToken (models app) ScopeAuthentication token with
          | Err err =>
              if errors_Is err ErrRecordNotFound then
                invalidAuthenticationTokenResponse r w
              else serverErrorResponse err r w
          | Ok found =>
              let (user, h) := alloc found (heap w) in
              let w := setHeap h w in
              let r := contextSetUser r user in
              next r w
          end.

(** *** middleware: the three gates *)
Definition requireAuthenticatedUser (next : HandlerFunc) : HandlerFunc :=
  fun r w =>
    match contextGetUser r with
    | None => emit missingUserPanic w
    | Some user =>
        if IsAnonymous user then authenticationRequiredResponse r w
        else next r w
    end.

Definition requireActivatedUser (next : HandlerFunc) : HandlerFunc :=
  let fn : HandlerFunc := fun r w =>
    match contextGetUser r with
    | None => emit missingUserPanic w
    | Some user =>
        match heap w !! user with
        | None => emit nilDereferencePanic w
        | Some u =>
            if negb (Activated u) then inactiveAccountResponse r w
            else next r w
        end
    end in
  requireAuthenticatedUser fn.

Definition requirePermission (app : application) (code : string)
    (next : HandlerFunc) : HandlerFunc :=
  let fn : HandlerFunc := fun r w =>
    match contextGetUser r with
    | None => emit missingUserPanic w
    | Some user =>
        match heap w !! user with
        | None => emit nilDereferencePanic w
        | Some u =>
            let w := emit (EvGetAllForUser (ID u)) w in
            match Permissions_GetAllForUser (models app) (ID u) with
            | Err err => serverErrorResponse err r w
            | Ok permissions =>
                if negb (Include permissions code) then notPermittedResponse r w
                else next r w
            end
        end
    end in
  requireActivatedUser fn.

(** *** movies.go (handlers): [updateMovieHandler] *)
Record movieInput := {
  inTitle : option string;
  inYear : option Z;
  inRuntime : option Z;
  inGenres : option (list string)
}.

(** What the libraries and the storage engine answer during one run of
    the handler. *)
Record updateRun := {
  parsedID : result Z;          (* strconv.ParseInt(params.ByName("id"), 10, 64) *)
  decoded : result movieInput;  (* app.readJSON(w, r, &input) *)
  nowYear : Z;                  (* time.Now().Year() *)
  getFault : option error;      (* a failure of the SELECT *)
  updateFault : option error;   (* a failure of the UPDATE *)
  concurrent : gmap Z Movie -> gmap Z Movie
    (* what other requests commit between this handler's read and its write *)
}.

Definition readIDParam (parsed : result Z) : result Z :=
  match parsed with
  | Err _ => Err (ErrOther "invalid id parameter")
  | Ok id => if id <? 1 then Err (ErrOther "invalid id parameter") else Ok id
  end.

Definition applyInput (input : movieInput) (movie : Movie) : Movie :=
  {| MovieID := MovieID movie;
     MovieCreatedAt := MovieCreatedAt movie;
     Title := match inTitle input with Some t => t | None => Title movie end;
     Year := match inYear input with Some y => y | None => Year movie end;
     Runtime := match inRuntime input with Some t => t | None => Runtime movie end;
     Genres := match inGenres input with Some g => Some g | None => Genres movie end;
     MovieVersion := MovieVersion movie |}.

Definition updateMovieHandler (app : application) (io : updateRun) : HandlerFunc :=
  fun r w =>
    match readIDParam (parsedID io) with
    | Err _ => notFoundResponse r w
    | Ok id =>
        let w := emit (EvMoviesGet id) w in
        match MovieModel_Get (getFault io) id (movies w) with
        | Err err =>
            if errors_Is err ErrRecordNotFound then notFoundResponse r w
            else serverErrorResponse err r w
        | Ok movie =>
            match decoded io with
            | Err err => badRequestResponse err r w
            | Ok input =>
                let movie := applyInput input movie in
                let v := validator.New in
                let v := ValidateMovie (nowYear io) v movie in
                if negb (validator.Valid v) then
                  failedValidationResponse (validator.Errors v) r w
                else
                  let w := setMovies (concurrent io (movies w)) w in
                  let w := emit (EvMoviesUpdate (MovieID movie) (MovieVersion movie)) w in
                  match MovieModel_Update (updateFault io) movie (movies w) with
                  | (ms, _, Some err) =>
                      let w := setMovies ms w in
                      if errors_Is err ErrEditConflict then editConflictResponse r w
                      else serverErrorResponse err r w
                  | (ms, movie, None) =>
                      let w := setMovies ms w in
                      emit (EvWriteJSON http_StatusOK (MovieBody movie)) w
                  end
            end
        end
    end.

(** *** server.go and helpers.go: the process

    [serve] runs in the main goroutine; the goroutine it starts waits
    for a signal and shuts the server down; [background] starts one
    goroutine per task.  The process is a state and the goroutines move
    it one [action] at a time, in any order the scheduler picks. *)
Inductive logEntry :=
| PrintInfo (message : string)
| PrintError (err : error).

(** How a call [fn()] ends. *)
Inductive completion :=
| Returns
| Panics (value : string).      (* the panic value, as [%s] prints it *)

(** A background function: the errors it logs itself, and how it ends. *)
Record task := { logged : list error; outcome : completion }.

Inductive serveState :=
| ListenAndServe                       (* in [srv.ListenAndServe()] *)
| ReceiveShutdownError                 (* blocked in [err = <-shutdownError] *)
| ReturnedListenError (err : error)    (* [return err] after ListenAndServe *)
| ReturnedShutdownError (err : error)  (* [return err] after the receive *)
| ReturnedNil.                         (* [return nil] *)

Inductive shutdownState :=
| AwaitSignal                          (* blocked in [s := <-quit] *)
| Signalled                            (* signal logged, about to call Shutdown *)
| InShutdown                           (* in [srv.Shutdown(ctx)] *)
| SendShutdownError (err : error)      (* blocked in [shutdownError <- err] *)
| WaitGroupWait                        (* blocked in [app.wg.Wait()] *)
| SendNil                              (* blocked in [shutdownError <- nil] *)
| ShutdownDone.

Record Server := {
  serveG : serveState;
  shutdownG : shutdownState;
  shutdownResult : option (option error);  (* what srv.Shutdown returned, once it has *)
  inFlight : bool;                         (* HTTP handlers may still be running *)
  wg : Z;                                  (* the counter of app.wg *)
  running : list task;                     (* background goroutines not yet finished *)
  logs : list logEntry
}.

Definition initServer : Server :=
  {| serveG := ListenAndServe; shutdownG := AwaitSignal; shutdownResult := None;
     inFlight := true; wg := 0; running := [];
     logs := [PrintInfo "starting server"] |}.

Definition wg_Add (delta : Z) (s : Server) : Server :=
  {| serveG := serveG s; shutdownG := shutdownG s;
     shutdownResult := shutdownResult s; inFlight := inFlight s;
     wg := wg s + delta; running := running s; logs := logs s |}.

Definition wg_Done : Server -> Server := wg_Add (-1).

Definition logger_Print (e : logEntry) (s : Server) : Server :=
  {| serveG := serveG s; shutdownG := shutdownG s;
     shutdownResult := shutdownResult s; inFlight := inFlight s;
     wg := wg s; running := running s; logs := logs s ++ [e] |}.

Definition setRunning (ts : list task) (s : Server) : Server :=
  {| serveG := serveG s; shutdownG := shutdownG s;
     shutdownResult := shutdownResult s; inFlight := inFlight s;
     wg := wg s; running := ts; logs := logs s |}.

Definition setGoroutines (m : serveState) (g : shutdownState) (s : Server) : Server :=
  {| serveG := m; shutdownG := g;
     shutdownResult := shutdownResult s; inFlight := inFlight s;
     wg := wg s; running := running s; logs := logs s |}.

Definition setShutdownResult (res : option error) (s : Server) : Server :=
  {| serveG := serveG s; shutdownG := shutdownG s;
     shutdownResult := Some res;
     inFlight := match res with None => false | Some _ => inFlight s end;
     wg := wg s; running := running s; logs := logs s |}.

(** [background]: [app.wg.Add(1)], then [go func() { ... }()]. *)
Definition background (fn : task) (s : Server) : Server :=
  let s := wg_Add 1 s in
  setRunning (running s ++ [fn]) s.

(** The body of the goroutine that [background] starts, run to its end:
    [fn()], then the deferred calls, last deferred first. *)
Definition backgroundGoroutine (fn : task) (s : Server) : Server :=
  let s := fold_left (fun s err => logger_Print (PrintError err) s) (logged fn) s in
  let s := match outcome fn with
           | Panics value => logger_Print (PrintError (ErrOther value)) s
           | Returns => s
           end in
  wg_Done s.

Inductive action :=
| Spawn (fn : task)                     (* a handler calls [app.background(fn)] *)
| Finish (i : nat)                      (* the i-th running task goroutine ends *)
| Signal                                (* SIGINT or SIGTERM is received *)
| CallShutdown                          (* [srv.Shutdown(ctx)] is called *)
| ShutdownReturns (err : option error)  (* [srv.Shutdown(ctx)] returns *)
| ListenReturns (err : error)           (* [srv.ListenAndServe()] returns *)
| Rendezvous                            (* a send on shutdownError meets the receive *)
| WaitReturns.                          (* [app.wg.Wait()] returns *)

(** The process is alive until [serve] returns ([main] then exits). *)
Definition alive (s : Server) : bool :=
  match serveG s with
  | ListenAndServe | ReceiveShutdownError => true
  | _ => false
  end.

Definition step (a : action) (s : Server) : option Server :=
  if negb (alive s) then None else
  match a with
  | Spawn fn => if inFlight s then Some (background fn s) else None
  | Finish i =>
      match running s !! i with
      | Some fn => Some (backgroundGoroutine fn (setRunning (delete i (running s)) s))
      | None => None
      end
  | Signal =>
      match shutdownG s with
      | AwaitSignal =>
          Some (logger_Print (PrintInfo "caught signal")
                  (setGoroutines (serveG s) Signalled s))
      | _ => None
      end
  | CallShutdown =>
      match shutdownG s with
      | Signalled => Some (setGoroutines (serveG s) InShutdown s)
      | _ => None
      end
  | ShutdownReturns res =>
      match shutdownG s with
      | InShutdown =>
          match res with
          | Some err =>
              Some (setGoroutines (serveG s) (SendShutdownError err)
                      (setShutdownResult res s))
          | None =>
              Some (logger_Print (PrintInfo "completing background tasks")
                      (setGoroutines (serveG s) WaitGroupWait
                         (setShutdownResult res s)))
          end
      | _ => None
      end
  | ListenReturns err =>
      match serveG s with
      | ListenAndServe =>
          if errors_Is err http_ErrServerClosed then
            match shutdownG s with
            | AwaitSignal | Signalled => None
            | _ => Some (setGoroutines ReceiveShutdownError (shutdownG s) s)
            end
          else
            match shutdownG s with
            | AwaitSignal | Signalled =>
                Some (setGoroutines (ReturnedListenError err) (shutdownG s) s)
            | _ => None
            end
      | _ => None
      end
  | Rendezvous =>
      match serveG s, shutdownG s with
      | ReceiveShutdownError, SendShutdownError err =>
          Some (setGoroutines (ReturnedShutdownError err) WaitGroupWait s)
      | ReceiveShutdownError, SendNil =>
          Some (logger_Print (PrintInfo "stopped server")
                  (setGoroutines ReturnedNil ShutdownDone s))
      | _, _ => None
      end
  | WaitReturns =>
      match shutdownG s with
      | WaitGroupWait =>
          if wg s =? 0 then Some (setGoroutines (serveG s) SendNil s) else None
      | _ => None
      end
  end.

(** A schedule, run from a state; [None] when it asks for a step that
    cannot be taken. *)
Fixpoint run (schedule : list action) (s : Server) : option Server :=
  match schedule with
  | [] => Some s
  | a :: rest =>
      match step a s with
      | Some s' => run rest s'
      | None => None
      end
  end.

(** *** Test doubles and observers *)

(** A business handler seen from outside: it records that it ran. *)
Definition served (name : string) : HandlerFunc :=
  fun r w => emit (EvServed name) w.

(** The same request, [n] times, with no time passing in between. *)
Fixpoint burstOf (n : nat) (h : HandlerFunc) (r : Request) (w : World) : World :=
  match n with
  | O => w
  | S k => h r (burstOf k h r w)
  end.

(** The events that are permission lookups. *)
Definition isPermissionLookup (e : event) : bool :=
  match e with EvGetAllForUser _ => true | _ => false end.

(** A bucket of rate [R] and capacity [B] that holds [j] whole tokens
    at time [t]: refilled at [t], or full. *)
Definition holds (R : Qc) (B : Z) (t : Z) (j : Z) (lim : rate.Limiter) : Prop :=
  rate.limit lim = R /\ rate.burst lim = B /\ rate.tokens lim = Qc_of_Z j
  /\ (rate.last lim = t \/ j = B).

(** The registry entry of [ip], if any, holds [j] tokens; no entry
    counts as a full bucket, for [rateLimit] creates one. *)
Definition entryHolds (app : application) (ip : string) (j : Z) (w : World) : Prop :=
  match clients w !! ip with
  | None => j = burst (limiter (cfg app))
  | Some c => holds (rps (limiter (cfg app))) (burst (limiter (cfg app))) (now w) j
                (limiter_ c)
  end.

(** The decisions of [rateLimit] read off a trace: the wrapped handler
    ran (allow) or the 429 response was written (deny). *)
Fixpoint decisions (tr : list event) : list bool :=
  match tr with
  | [] => []
  | EvServed _ :: rest => true :: decisions rest
  | EvWriteJSON 429 _ :: rest => false :: decisions rest
  | _ :: rest => decisions rest
  end.

(** The invariant of the process: the wait-group counter is the number
    of unfinished background goroutines, and the shutdown goroutine is
    where the result of [srv.Shutdown] and the state of [serve] allow. *)
Definition coordinated (s : Server) : Prop :=
  wg s = Z.of_nat (length (running s))
  /\ match shutdownG s with
     | AwaitSignal | Signalled | InShutdown =>
         shutdownResult s = None
         /\ (alive s = true \/ exists e, serveG s = ReturnedListenError e)
     | SendShutdownError e =>
         shutdownResult s = Some (Some e) /\ alive s = true
     | WaitGroupWait =>
         (shutdownResult s = Some None /\ inFlight s = false /\ alive s = true)
         \/ (exists e, shutdownResult s = Some (Some e)
                      /\ serveG s = ReturnedShutdownError e)
     | SendNil =>
         shutdownResult s = Some None /\ inFlight s = false /\ wg s = 0
         /\ alive s = true
     | ShutdownDone =>
         shutdownResult s = Some None /\ wg s = 0 /\ serveG s = ReturnedNil
     end.

(** The shutdown goroutine has got past its send of the error. *)
Definition pastErrorSend (g : shutdownState) : Prop :=
  g = WaitGroupWait \/ g = SendNil \/ g = ShutdownDone.

(** A string without the byte [c]. *)
Fixpoint without (c : ascii) (s : string) : bool :=
  match s with
  | EmptyString => true
  | String a rest => negb (Ascii.eqb a c) && without c rest
  end.

(** *** movies.go (handlers): [showMovieHandler], [deleteMovieHandler] *)
Definition showMovieHandler (app : application) (parsed : result Z)
    (fault : option error) : HandlerFunc :=
  fun r w =>
    match readIDParam parsed with
    | Err _ => notFoundResponse r w
    | Ok id =>
        let w := emit (EvMoviesGet id) w in
        match MovieModel_Get fault id (movies w) with
        | Err err =>
            if errors_Is err ErrRecordNotFound then notFoundResponse r w
            else serverErrorResponse err r w
        | Ok movie => emit (EvWriteJSON http_StatusOK (MovieBody movie)) w
        end
    end.

Definition deleteMovieHandler (app : application) (parsed : result Z)
    (fault : option error) : HandlerFunc :=
  fun r w =>
    match readIDParam parsed with
    | Err _ => notFoundResponse r w
    | Ok id =>
        match MovieModel_Delete fault id (movies w) with
        | (ms, Some err) =>
            let w := setMovies ms w in
            if errors_Is err ErrRecordNotFound then notFoundResponse r w
            else serverErrorResponse err r w
        | (ms, None) =>
            let w := setMovies ms w in
            emit (EvWriteJSON http_StatusOK (Message "movie successfully deleted")) w
        end
    end.

(** The status codes of the responses written, in order. *)
Fixpoint statuses (tr : list event) : list Z :=
  match tr with
  | [] => []
  | EvWriteJSON status _ :: rest => status :: statuses rest
  | _ :: rest => statuses rest
  end.

(** Requests handled one after the other, each to its end. *)
Fixpoint serveEach (handlers : list HandlerFunc) (r : Request) (w : World) : World :=
  match handlers with
  | [] => w
  | h :: rest => serveEach rest r (h r w)
  end.

(** How often a status occurs. *)
Definition countStatus (status : Z) (tr : list event) : Z :=
  Z.of_nat (length (filter (fun s => s = status) (statuses tr))).

(** Every row of the table is stored under its own id. *)
Definition keyedByID (ms : gmap Z Movie) : Prop :=
  forall id row, ms !! id = Some row -> MovieID row = id.

End api.

(** ** Package [main] (cmd/api): [enableCORS]

    [enableCORS] reads the method of the request and adds values to the
    headers of the response, which the handlers above do not; this is the
    request and the response writer of [net/http] as far as it uses
    them. *)
Module cors.

(** An [http.Header] is a map from keys to their values, in the order
    they were added.  [h.Get(key)]: the first value of the key, or the
    empty string. *)
Definition Header_Get (h : gmap string (list string)) (key : string) : string :=
  match h !! key with
  | Some (value :: _) => value
  | _ => ""
  end.

(** [h.Add(key, value)] *)
Definition Header_Add (key value : string) (h : gmap string (list string))
  : gmap string (list string) :=
  <[key := default [] (h !! key) ++ [value]]> h.

(** [h.Set(key, value)] *)
Definition Header_Set (key value : string) (h : gmap string (list string))
  : gmap string (list string) :=
  <[key := [value]]> h.

Record Request := { Method : string; Header : gmap string (list string) }.

(** An [http.ResponseWriter]: the header map, and the status code once it
    has been written. *)
Record ResponseWriter := { header : gmap string (list string); status : option Z }.

Definition Handler := Request -> ResponseWriter -> ResponseWriter.

Definition addHeader (key value : string) (w : ResponseWriter) : ResponseWriter :=
  {| header := Header_Add key value (header w); status := status w |}.

Definition setHeader (key value : string) (w : ResponseWriter) : ResponseWriter :=
  {| header := Header_Set key value (header w); status := status w |}.

(** [w.WriteHeader(code)]: the first call fixes the status. *)
Definition WriteHeader (code : Z) (w : ResponseWriter) : ResponseWriter :=
  {| header := header w;
     status := match status w with Some s => Some s | None => Some code end |}.

Definition http_MethodOptions : string := "OPTIONS".

(** The test of a preflight request. *)
Definition preflight (r : Request) : bool :=
  String.eqb (Method r) http_MethodOptions
  && negb (String.eqb (Header_Get (Header r) "Access-Control-Request-Method") "").

(** [enableCORS]; [trustedOrigins] is [app.config.cors.trustedOrigins]. *)
Definition enableCORS (trustedOrigins : list string) (next : Handler) : Handler :=
  fun r w =>
    let w := addHeader "Vary" "Origin" w in
    let w := addHeader "Vary" "Access-Control-Request-Method" w in
    let origin := Header_Get (Header r) "Origin" in
    if negb (String.eqb origin "") then
      (fix loop (origins : list string) : ResponseWriter :=
         match origins with
         | [] => next r w
         | trusted :: rest =>
             if String.eqb origin trusted then
               let w := setHeader "Access-Control-Allow-Origin" origin w in
               if String.eqb (Method r) http_MethodOptions
                  && negb (String.eqb (Header_Get (Header r)
                                         "Access-Control-Request-Method") "")
               then
                 let w := setHeader "Access-Control-Allow-Methods"
                            "OPTIONS, PUT, PATCH, DELETE" w in
                 let w := setHeader "Access-Control-Allow-Headers"
                            "Authorization, Content-Type" w in
                 WriteHeader api.http_StatusOK w
               else next r w
             else loop rest
         end) trustedOrigins
    else next r w.

(** The response writer after the two [Vary] values. *)
Definition varied (w : ResponseWriter) : ResponseWriter :=
  addHeader "Vary" "Access-Control-Request-Method" (addHeader "Vary" "Origin" w).

End cors.

(** ** The spec's wording, where it is compared with the code *)
Module Spec.

(** The plaintext-token shape validator as the spec words it: exactly 26
    characters, every one from the restricted (base32) alphabet. *)
Definition tokenShape (t : string) : bool :=
  (len t =? 26) && data.allInAlphabet t data.base32Alphabet.

End Spec.

(** ** Concrete inputs, for running the definitions *)
Module Fixtures.
Import data api.

(** A storage engine that knows no token and grants nothing. *)
Definition emptyModels : Models :=
  {| Users_GetForToken := fun _ _ => Err ErrRecordNotFound;
     Permissions_GetAllForUser := fun _ => Ok [] |}.

(** The defaults of [main]: limiter on, 2 requests per second, burst 4. *)
Definition defaultConfig : config :=
  {| limiter := {| enabled := true; rps := Qc_of_Z 2; burst := 4 |} |}.

Definition app0 : application := {| cfg := defaultConfig; models := emptyModels |}.

(** The world when the process starts. *)
Definition world0 : World :=
  {| now := 1000 * time_Second; heap := initHeap; clients := ∅; movies := ∅;
     trace := [] |}.

Definition request (authorization : option string) : Request :=
  {| Header := match authorization with
               | Some value => {[ "Authorization" := value ]}
               | None => ∅
               end;
     RemoteIP := "c1"; ctxUser := None |}.

(** Twenty-six bytes, none of them in the base32 alphabet. *)
Definition bangs26 : string := "!!!!!!!!!!!!!!!!!!!!!!!!!!".

(** A well-formed token. *)
Definition token26 : string := "ABCDEFGHIJKLMNOPQRSTUVWXYZ".

(** A movie stored at version 3, and an edit of it read at version 3. *)
Definition storedV3 : Movie :=
  {| MovieID := 1; MovieCreatedAt := 0; Title := "Moana"; Year := 2016;
     Runtime := 107; Genres := Some ["animation"; "adventure"];
     MovieVersion := 3 |}.

Definition editV3 : Movie :=
  {| MovieID := 1; MovieCreatedAt := 0; Title := "Moana"; Year := 2016;
     Runtime := 113; Genres := Some ["animation"; "adventure"];
     MovieVersion := 3 |}.

Definition editV4 : Movie :=
  {| MovieID := 1; MovieCreatedAt := 0; Title := "Moana"; Year := 2016;
     Runtime := 113; Genres := Some ["animation"; "adventure"];
     MovieVersion := 4 |}.

Definition moviesV3 : gmap Z Movie := {[ 1 := storedV3 ]}.
Definition moviesV4 : gmap Z Movie := {[ 1 := editV4 ]}.

(** A user stored at version 1, and the activation of that user. *)
Definition aliceV1 : User :=
  {| ID := 7; CreatedAt := 0; Name := "Alice"; Email := "alice@example.com";
     Password := {| plaintext := None; hash := Some "$2a$12$hash" |};
     Activated := false; Version := 1 |}.

Definition activatedV1 : User :=
  {| ID := 7; CreatedAt := 0; Name := "Alice"; Email := "alice@example.com";
     Password := {| plaintext := None; hash := Some "$2a$12$hash" |};
     Activated := true; Version := 1 |}.

Definition activatedV2 : User :=
  {| ID := 7; CreatedAt := 0; Name := "Alice"; Email := "alice@example.com";
     Password := {| plaintext := None; hash := Some "$2a$12$hash" |};
     Activated := true; Version := 2 |}.

Definition usersV1 : gmap Z User := {[ 7 := aliceV1 ]}.
Definition usersV2 : gmap Z User := {[ 7 := activatedV2 ]}.

(** A run of [updateMovieHandler] for id 1 that changes the runtime,
    while [others] is what other requests commit in between. *)
Definition patchRuntime (others : gmap Z Movie -> gmap Z Movie) : updateRun :=
  {| parsedID := Ok 1;
     decoded := Ok {| inTitle := None; inYear := None; inRuntime := Some 113;
                      inGenres := None |};
     nowYear := 2026; getFault := None; updateFault := None;
     concurrent := others |}.

Definition worldWith (ms : gmap Z Movie) : World :=
  {| now := 1000 * time_Second; heap := initHeap; clients := ∅; movies := ms;
     trace := [] |}.

(** A registry with one client last seen four minutes before the clock
    of [world0] and one last seen a minute before it. *)
Definition someLimiter : rate.Limiter := rate.NewLimiter (Qc_of_Z 2) 4.

Definition staleClient : client :=
  {| limiter_ := someLimiter; lastSeen := 1000 * time_Second - 4 * time_Minute |}.

Definition activeClient : client :=
  {| limiter_ := someLimiter; lastSeen := 1000 * time_Second - time_Minute |}.

Definition twoClients : gmap string client :=
  {[ "stale" := staleClient; "active" := activeClient ]}.

Definition worldOfClients (cs : gmap string client) : World :=
  {| now := 1000 * time_Second; heap := initHeap; clients := cs; movies := ∅;
     trace := [] |}.

(** A welcome mail that takes its time, and one whose sending panics. *)
Definition slowMail : task := {| logged := []; outcome := Returns |}.

Definition panickingMail : task :=
  {| logged := [ErrOther "dial tcp: i/o timeout"];
     outcome := Panics "runtime error: index out of range" |}.

Definition deadlineExceeded : error := ErrOther "context deadline exceeded".

(** One mail is still being sent when the signal arrives, and the
    listener does not stop within its grace period. *)
Definition failedStop : list action :=
  [Spawn slowMail; Signal; CallShutdown; ShutdownReturns (Some deadlineExceeded);
   ListenReturns http_ErrServerClosed; Rendezvous].

(** Two mails, one of them panicking, and a clean stop of the listener. *)
Definition cleanStop : list action :=
  [Spawn slowMail; Spawn panickingMail; Signal; CallShutdown;
   ListenReturns http_ErrServerClosed; ShutdownReturns None;
   Finish 1; Finish 0; WaitReturns; Rendezvous].

Definition afterFailedStop : Server :=
  Eval lazy in default initServer (run failedStop initServer).

Definition afterCleanStop : Server :=
  Eval lazy in default initServer (run cleanStop initServer).

(** The filters of a request for the third page of twenty movies, newest
    first, with the safelist of [listMoviesHandler]. *)
Definition newestFirst : Filters :=
  {| Page := 3; PageSize := 20; Sort := "-year";
     SortSafelist := ["id"; "title"; "year"; "runtime";
                      "-id"; "-title"; "-year"; "-runtime"] |}.

(** The same with a sort value that is not in the safelist. *)
Definition unsafeSort : Filters :=
  {| Page := 3; PageSize := 20; Sort := "id; DROP TABLE movies";
     SortSafelist := ["id"; "title"; "year"; "runtime";
                      "-id"; "-title"; "-year"; "-runtime"] |}.

(** A storage engine that knows [token26] as the token of an activated
    user with id 7, who may read movies. *)
Definition aliceActive : User :=
  {| ID := 7; CreatedAt := 0; Name := "Alice"; Email := "alice@example.com";
     Password := {| plaintext := None; hash := Some "$2a$12$hash" |};
     Activated := true; Version := 2 |}.

Definition aliceModels : Models :=
  {| Users_GetForToken := fun scope token =>
       if String.eqb scope ScopeAuthentication && String.eqb token token26
       then Ok aliceActive else Err ErrRecordNotFound;
     Permissions_GetAllForUser := fun id =>
       if id =? 7 then Ok ["movies:read"] else Ok [] |}.

Definition aliceApp : application := {| cfg := defaultConfig; models := aliceModels |}.

(** A browser's preflight for a [PUT] from a trusted origin, a request
    from an origin that is not trusted, and a response not yet begun. *)
Definition trusted : list string :=
  ["https://cinevault.example"; "https://admin.cinevault.example"].

Definition preflightPut : cors.Request :=
  {| cors.Method := "OPTIONS";
     cors.Header := {[ "Origin" := ["https://admin.cinevault.example"];
                       "Access-Control-Request-Method" := ["PUT"] ]} |}.

Definition foreignGet : cors.Request :=
  {| cors.Method := "GET";
     cors.Header := {[ "Origin" := ["https://elsewhere.example"] ]} |}.

Definition blank : cors.ResponseWriter := {| cors.header := ∅; cors.status := None |}.

End Fixtures.

Import data api.

(** * Part II: properties *)

(** ** Strings *)

Lemma strings_Split_without s sep :
  without sep s = true -> strings_Split s sep = [s].
Proof.
  induction s as [|a rest IH]; simpl; [reflexivity|].
  intros H. apply andb_prop in H as [Ha Hrest].
  apply negb_true_iff in Ha. rewrite Ha, (IH Hrest). reflexivity.
Qed.

Lemma strings_Split_Bearer t :
  without " " t = true -> strings_Split ("Bearer " +:+ t) " " = ["Bearer"; t].
Proof.
  intros H. unfold String.append; fold String.append. simpl.
  rewrite (strings_Split_without _ _ H). reflexivity.
Qed.

Lemma Bearer_not_empty t : String.eqb ("Bearer " +:+ t) "" = false.
Proof. reflexivity. Qed.

(** ** The validator *)

Lemma Valid_New : validator.Valid validator.New = true.
Proof. reflexivity. Qed.

Lemma Valid_AddError v key message :
  validator.Valid (validator.AddError v key message) = false.
Proof.
  unfold validator.AddError, validator.Valid.
  destruct (validator.Errors v !! key) as [old|] eqn:Hk; simpl.
  - apply Nat.eqb_neq. intros Hsz. apply map_size_empty_iff in Hsz.
    rewrite Hsz in Hk. by rewrite lookup_empty in Hk.
  - rewrite map_size_insert_None by done. reflexivity.
Qed.

Lemma Valid_Check v ok key message :
  validator.Valid (validator.Check v ok key message)
  = validator.Valid v && ok.
Proof.
  unfold validator.Check. destruct ok; simpl.
  - by rewrite andb_true_r.
  - by rewrite Valid_AddError, andb_false_r.
Qed.

(** The validator of the code accepts exactly the 26-byte strings. *)
Lemma ValidateTokenPlaintext_Valid t :
  validator.Valid (ValidateTokenPlaintext validator.New t) = (len t =? 26).
Proof.
  unfold ValidateTokenPlaintext. rewrite !Valid_Check, Valid_New. simpl.
  destruct t as [|a t]; simpl; [reflexivity|].
  reflexivity.
Qed.


(** ** PrincipalResolver: [authenticate] *)

Lemma trace_emit e w : trace (emit e w) = trace w ++ [e].
Proof. reflexivity. Qed.

(** C9: resolving an empty (or absent) Authorization header yields the
    anonymous principal with no error, whatever the application and the
    rest of the request are: the next handler runs, on a request whose
    principal is [AnonymousUser], and nothing but the [Vary] header has
    been written or looked up. *)
Theorem authenticate_empty_header_is_anonymous :
  forall (app : application) (next : HandlerFunc) (r : Request) (w : World),
    Header_Get r "Authorization" = "" ->
    authenticate app next r w
    = next (contextSetUser r AnonymousUser)
        (emit (EvHeaderSet "Vary" "Authorization") w)
    /\ contextGetUser (contextSetUser r AnonymousUser) = Some AnonymousUser
    /\ IsAnonymous AnonymousUser = true.
Proof.
  intros app next r w Hempty. split; [|split; reflexivity].
  unfold authenticate. rewrite Hempty. reflexivity.
Qed.

Lemma authenticate_empty_header_is_anonymous_witness :
  Header_Get (Fixtures.request None) "Authorization" = ""
  /\ trace (authenticate Fixtures.app0 (served "next") (Fixtures.request None)
              Fixtures.world0)
     = [EvHeaderSet "Vary" "Authorization"; EvServed "next"].
Proof.
  split; [reflexivity|].
  rewrite (proj1 (authenticate_empty_header_is_anonymous Fixtures.app0 (served "next")
                    (Fixtures.request None) Fixtures.world0 eq_refl)).
  reflexivity.
Defined.

Lemma Header_Get_Some r key value :
  Header r !! key = Some value -> Header_Get r key = value.
Proof. unfold Header_Get. intros ->. reflexivity. Qed.

(** What [authenticate] does on a header [Bearer t], by the length of [t]. *)
Lemma authenticate_Bearer app next r w t :
  Header_Get r "Authorization" = "Bearer " +:+ t ->
  without " " t = true ->
  authenticate app next r w
  = let w := emit (EvHeaderSet "Vary" "Authorization") w in
    if len t =? 26 then
      let w := emit (EvGetForToken ScopeAuthentication t) w in
      match Users_GetForToken (models app) ScopeAuthentication t with
      | Err err =>
          if errors_Is err ErrRecordNotFound then invalidAuthenticationTokenResponse r w
          else serverErrorResponse err r w
      | Ok found =>
          next (contextSetUser r (length (heap w))) (setHeap (heap w ++ [found]) w)
      end
    else invalidAuthenticationTokenResponse r w.
Proof.
  intros Hhdr Hsp. unfold authenticate.
  rewrite Hhdr, Bearer_not_empty, (strings_Split_Bearer _ Hsp).
  cbn [length nth Nat.eqb String.eqb negb orb].
  change (String.eqb "Bearer" "Bearer") with true.
  cbn [negb orb].
  rewrite ValidateTokenPlaintext_Valid.
  destruct (len t =? 26); reflexivity.
Qed.

(** C3, as the claim words it, fails: twenty-six bytes outside the base32
    alphabet do not pass the spec's shape validator, yet [authenticate]
    hands them to the credential lookup. *)
Lemma authenticate_alphabet_counterexample :
  ~ (forall (app : application) (next : HandlerFunc) (r : Request) (w : World)
            (t : string),
        Header_Get r "Authorization" = "Bearer " +:+ t ->
        without " " t = true ->
        Spec.tokenShape t = false ->
        authenticate app next r w
        = invalidAuthenticationTokenResponse r
            (emit (EvHeaderSet "Vary" "Authorization") w)).
Proof.
  intros claim.
  specialize (claim Fixtures.app0 (served "next")
                (Fixtures.request (Some ("Bearer " +:+ Fixtures.bangs26)))
                Fixtures.world0 Fixtures.bangs26 eq_refl eq_refl eq_refl).
  apply (f_equal trace) in claim. vm_compute in claim. discriminate claim.
Qed.

(** C3, amended: on a header [Bearer t], the token [t] is rejected with
    the invalid-authentication-token response, and the credential lookup
    is not contacted, unless [t] is exactly 26 bytes long; a 26-byte [t]
    is handed to the lookup, scoped to authentication, whatever its
    bytes are. *)
Theorem authenticate_token_length_gate :
  forall (app : application) (next : HandlerFunc) (r : Request) (w : World)
         (t : string),
    Header_Get r "Authorization" = "Bearer " +:+ t ->
    without " " t = true ->
    (len t <> 26 ->
       authenticate app next r w
       = invalidAuthenticationTokenResponse r
           (emit (EvHeaderSet "Vary" "Authorization") w)
       /\ trace (authenticate app next r w)
          = trace w ++ [EvHeaderSet "Vary" "Authorization";
                        EvHeaderSet "WWW-Authenticate" "Bearer";
                        EvWriteJSON http_StatusUnauthorized
                          (Message "invalid or missing authentication token")])
    /\ (len t = 26 ->
          authenticate app next r w
          = let w := emit (EvGetForToken ScopeAuthentication t)
                       (emit (EvHeaderSet "Vary" "Authorization") w) in
            match Users_GetForToken (models app) ScopeAuthentication t with
            | Err err =>
                if errors_Is err ErrRecordNotFound
                then invalidAuthenticationTokenResponse r w
                else serverErrorResponse err r w
            | Ok found =>
                next (contextSetUser r (length (heap w)))
                  (setHeap (heap w ++ [found]) w)
            end).
Proof.
  intros app next r w t Hhdr Hsp.
  pose proof (authenticate_Bearer app next r w t Hhdr Hsp) as Hrun.
  split.
  - intros Hlen. apply Z.eqb_neq in Hlen. cbv zeta in Hrun.
    rewrite Hlen in Hrun. split; [exact Hrun|].
    rewrite Hrun. unfold invalidAuthenticationTokenResponse, errorResponse.
    rewrite !trace_emit, <- !app_assoc. reflexivity.
  - intros Hlen. apply Z.eqb_eq in Hlen. cbv zeta in Hrun.
    rewrite Hlen in Hrun. exact Hrun.
Qed.

Lemma authenticate_token_length_gate_witness :
  trace (authenticate Fixtures.app0 (served "next")
           (Fixtures.request (Some "Bearer short")) Fixtures.world0)
  = [EvHeaderSet "Vary" "Authorization";
     EvHeaderSet "WWW-Authenticate" "Bearer";
     EvWriteJSON http_StatusUnauthorized
       (Message "invalid or missing authentication token")]
  /\ trace (authenticate Fixtures.app0 (served "next")
              (Fixtures.request (Some ("Bearer " +:+ Fixtures.token26)))
              Fixtures.world0)
     = [EvHeaderSet "Vary" "Authorization";
        EvGetForToken ScopeAuthentication Fixtures.token26;
        EvHeaderSet "WWW-Authenticate" "Bearer";
        EvWriteJSON http_StatusUnauthorized
          (Message "invalid or missing authentication token")].
Proof.
  split.
  - destruct (authenticate_token_length_gate Fixtures.app0 (served "next")
                (Fixtures.request (Some "Bearer short")) Fixtures.world0 "short"
                eq_refl eq_refl) as [Hreject _].
    destruct Hreject as [_ Htrace]; [discriminate|]. exact Htrace.
  - destruct (authenticate_token_length_gate Fixtures.app0 (served "next")
                (Fixtures.request (Some ("Bearer " +:+ Fixtures.token26)))
                Fixtures.world0 Fixtures.token26 eq_refl eq_refl) as [_ Hlookup].
    rewrite (Hlookup eq_refl). reflexivity.
Defined.

(** ** AuthorizationChain: the three gates *)

(** C4: the gates run in the order authentication, activation,
    permission.  An anonymous principal gets the authentication-required
    response and an authenticated but inactive one the inactive-account
    response; in both cases that response is all that happens: no
    permission lookup, and the wrapped handler does not run.  For an
    active principal the lookup is made, and the wrapped handler runs only
    when the lookup succeeds and contains the code. *)
Theorem requirePermission_gate_order :
  forall (app : application) (code : string) (next : HandlerFunc)
         (r : Request) (w : World),
    (contextGetUser r = Some AnonymousUser ->
       requirePermission app code next r w = authenticationRequiredResponse r w
       /\ trace (requirePermission app code next r w)
          = trace w ++ [EvWriteJSON http_StatusUnauthorized
                          (Message "you must be authenticated to access this resource")])
    /\ (forall (user : ptr) (u : User),
          contextGetUser r = Some user -> IsAnonymous user = false ->
          heap w !! user = Some u -> Activated u = false ->
          requirePermission app code next r w = inactiveAccountResponse r w
          /\ trace (requirePermission app code next r w)
             = trace w ++ [EvWriteJSON http_StatusForbidden
                             (Message "your user account must be activated to access this resource")])
    /\ (forall (user : ptr) (u : User),
          contextGetUser r = Some user -> IsAnonymous user = false ->
          heap w !! user = Some u -> Activated u = true ->
          requirePermission app code next r w
          = let w := emit (EvGetAllForUser (ID u)) w in
            match Permissions_GetAllForUser (models app) (ID u) with
            | Err err => serverErrorResponse err r w
            | Ok permissions =>
                if Include permissions code then next r w
                else notPermittedResponse r w
            end).
Proof.
  intros app code next r w. split; [|split].
  - intros Hanon. unfold requirePermission, requireActivatedUser, requireAuthenticatedUser.
    rewrite Hanon. simpl. split; reflexivity.
  - intros user u Hctx Hauth Hu Hinactive.
    unfold requirePermission, requireActivatedUser, requireAuthenticatedUser.
    rewrite Hctx, Hauth, Hu, Hinactive. simpl. split; reflexivity.
  - intros user u Hctx Hauth Hu Hactive.
    unfold requirePermission, requireActivatedUser, requireAuthenticatedUser.
    rewrite Hctx, Hauth, Hu, Hactive. simpl.
    destruct (Permissions_GetAllForUser (models app) (ID u)) as [permissions|err];
      [|reflexivity].
    destruct (Include permissions code); reflexivity.
Qed.

Lemma requirePermission_gate_order_witness :
  (let r := contextSetUser (Fixtures.request None) AnonymousUser in
   forallb (fun e => negb (isPermissionLookup e))
     (trace (requirePermission Fixtures.app0 "movies:read" (served "next") r
               Fixtures.world0)) = true
   /\ trace (requirePermission Fixtures.app0 "movies:read" (served "next") r
               Fixtures.world0)
      = [EvWriteJSON http_StatusUnauthorized
           (Message "you must be authenticated to access this resource")])
  /\ (let '(user, h) := alloc zeroUser initHeap in
      let r := contextSetUser (Fixtures.request None) user in
      let w := setHeap h Fixtures.world0 in
      trace (requirePermission Fixtures.app0 "movies:read" (served "next") r w)
      = [EvWriteJSON http_StatusForbidden
           (Message "your user account must be activated to access this resource")]).
Proof.
  split.
  - destruct (requirePermission_gate_order Fixtures.app0 "movies:read" (served "next")
                (contextSetUser (Fixtures.request None) AnonymousUser) Fixtures.world0)
      as [Hanon _].
    destruct (Hanon eq_refl) as [_ Htrace]. cbv zeta. rewrite Htrace.
    split; reflexivity.
  - destruct (requirePermission_gate_order Fixtures.app0 "movies:read" (served "next")
                (contextSetUser (Fixtures.request None) 1%nat)
                (setHeap (initHeap ++ [zeroUser]) Fixtures.world0))
      as [_ [Hinactive _]].
    destruct (Hinactive 1%nat zeroUser eq_refl eq_refl eq_refl eq_refl) as [_ Htrace].
    exact Htrace.
Defined.

(** C10: the anonymous check is identity with the sentinel, not equality
    of fields.  [IsAnonymous] holds of a pointer exactly when it is
    [AnonymousUser]; any other pointer, even to a [User] whose fields are
    all zero like the sentinel's, is not anonymous, and
    [requireAuthenticatedUser] lets it through to the wrapped handler. *)
Theorem IsAnonymous_is_pointer_identity :
  (forall user : ptr, IsAnonymous user = true <-> user = AnonymousUser)
  /\ (forall (next : HandlerFunc) (r : Request) (w : World) (user : ptr),
        contextGetUser r = Some user ->
        user <> AnonymousUser ->
        heap w !! user = Some zeroUser ->
        heap w !! AnonymousUser = Some zeroUser ->
        IsAnonymous user = false
        /\ requireAuthenticatedUser next r w = next r w).
Proof.
  split.
  - intros user. unfold IsAnonymous. apply Nat.eqb_eq.
  - intros next r w user Hctx Hne _ _.
    assert (IsAnonymous user = false) as Hfalse
      by (unfold IsAnonymous; by apply Nat.eqb_neq).
    split; [exact Hfalse|].
    unfold requireAuthenticatedUser. rewrite Hctx, Hfalse. reflexivity.
Qed.

Lemma IsAnonymous_is_pointer_identity_witness :
  let '(user, h) := alloc zeroUser initHeap in
  let r := contextSetUser (Fixtures.request None) user in
  let w := setHeap h Fixtures.world0 in
  h !! user = h !! AnonymousUser
  /\ IsAnonymous user = false
  /\ trace (requireAuthenticatedUser (served "next") r w) = [EvServed "next"].
Proof.
  destruct IsAnonymous_is_pointer_identity as [_ Hgate].
  destruct (Hgate (served "next")
              (contextSetUser (Fixtures.request None) 1%nat)
              (setHeap (initHeap ++ [zeroUser]) Fixtures.world0) 1%nat
              eq_refl ltac:(discriminate) eq_refl eq_refl) as [Hfalse Hrun].
  simpl. split; [reflexivity|]. split; [exact Hfalse|].
  change (trace (requireAuthenticatedUser (served "next")
                   (contextSetUser (Fixtures.request None) 1%nat)
                   (setHeap (initHeap ++ [zeroUser]) Fixtures.world0))
          = [EvServed "next"]).
  rewrite Hrun. reflexivity.
Defined.

(** ** ConcurrencyGuard: the conditional updates *)

Lemma MovieModel_Update_success fault movie ms ms' movie' :
  MovieModel_Update fault movie ms = (ms', movie', None) ->
  exists row row',
    ms !! MovieID movie = Some row
    /\ MovieVersion row = MovieVersion movie
    /\ ms' !! MovieID movie = Some row'
    /\ MovieVersion row' = MovieVersion row + 1
    /\ MovieVersion movie' = MovieVersion row'.
Proof.
  unfold MovieModel_Update, MovieModel_Update_query.
  destruct fault as [e|]; [intros [=]|].
  destruct (ms !! MovieID movie) as [row|] eqn:Hrow; [|intros [=]].
  destruct (MovieVersion row =? MovieVersion movie) eqn:Hv; [|intros [=]].
  intros [= <- <-]. apply Z.eqb_eq in Hv.
  eexists row, _. rewrite lookup_insert_eq. repeat split; done.
Qed.

Lemma MovieModel_Update_mismatch fault movie ms row :
  ms !! MovieID movie = Some row ->
  MovieVersion row <> MovieVersion movie ->
  exists err,
    MovieModel_Update fault movie ms = (ms, movie, Some err)
    /\ (fault = None -> err = ErrEditConflict).
Proof.
  intros Hrow Hv. unfold MovieModel_Update, MovieModel_Update_query.
  destruct fault as [e|].
  - eexists. split; [reflexivity|]. intros [=].
  - rewrite Hrow. apply Z.eqb_neq in Hv. rewrite Hv.
    eexists. split; reflexivity.
Qed.

Lemma UserModel_Update_success fault user us us' user' :
  UserModel_Update fault user us = (us', user', None) ->
  exists row row',
    us !! ID user = Some row
    /\ Version row = Version user
    /\ us' !! ID user = Some row'
    /\ Version row' = Version row + 1
    /\ Version user' = Version row'.
Proof.
  unfold UserModel_Update, UserModel_Update_query.
  destruct fault as [e|]; [intros [=]|].
  destruct (us !! ID user) as [row|] eqn:Hrow; [|intros [=]].
  destruct (Version row =? Version user) eqn:Hv; [|intros [=]].
  intros [= <- <-]. apply Z.eqb_eq in Hv.
  eexists row, _. rewrite lookup_insert_eq. repeat split; done.
Qed.

Lemma UserModel_Update_mismatch fault user us row :
  us !! ID user = Some row ->
  Version row <> Version user ->
  exists err,
    UserModel_Update fault user us = (us, user, Some err)
    /\ (fault = None -> err = ErrEditConflict).
Proof.
  intros Hrow Hv. unfold UserModel_Update, UserModel_Update_query.
  destruct fault as [e|].
  - eexists. split; [reflexivity|]. intros [=].
  - rewrite Hrow. apply Z.eqb_neq in Hv. rewrite Hv.
    eexists. split; reflexivity.
Qed.

(** C2: for movies and for users alike, an update that succeeds found the
    stored version equal to the caller's, stores exactly that version plus
    one, and hands the new version back in the caller's struct; an update
    whose version differs from the stored one is refused with an error
    (the edit conflict, when the engine itself did not fail) and leaves
    table and struct as they were. *)
Theorem conditional_update_increments_or_rejects :
  (forall fault movie ms ms' movie',
      MovieModel_Update fault movie ms = (ms', movie', None) ->
      exists row row',
        ms !! MovieID movie = Some row
        /\ MovieVersion row = MovieVersion movie
        /\ ms' !! MovieID movie = Some row'
        /\ MovieVersion row' = MovieVersion row + 1
        /\ MovieVersion movie' = MovieVersion row')
  /\ (forall fault movie ms row,
        ms !! MovieID movie = Some row ->
        MovieVersion row <> MovieVersion movie ->
        exists err,
          MovieModel_Update fault movie ms = (ms, movie, Some err)
          /\ (fault = None -> err = ErrEditConflict))
  /\ (forall fault user us us' user',
        UserModel_Update fault user us = (us', user', None) ->
        exists row row',
          us !! ID user = Some row
          /\ Version row = Version user
          /\ us' !! ID user = Some row'
          /\ Version row' = Version row + 1
          /\ Version user' = Version row')
  /\ (forall fault user us row,
        us !! ID user = Some row ->
        Version row <> Version user ->
        exists err,
          UserModel_Update fault user us = (us, user, Some err)
          /\ (fault = None -> err = ErrEditConflict)).
Proof.
  split; [|split; [|split]].
  - exact MovieModel_Update_success.
  - exact MovieModel_Update_mismatch.
  - exact UserModel_Update_success.
  - exact UserModel_Update_mismatch.
Qed.

Lemma conditional_update_increments_or_rejects_witness :
  (MovieModel_Update None Fixtures.editV3 Fixtures.moviesV3
   = (Fixtures.moviesV4, Fixtures.editV4, None)
   /\ exists row row',
        Fixtures.moviesV3 !! 1 = Some row
        /\ MovieVersion row = 3
        /\ Fixtures.moviesV4 !! 1 = Some row'
        /\ MovieVersion row' = MovieVersion row + 1
        /\ MovieVersion Fixtures.editV4 = MovieVersion row')
  /\ (exists err,
        MovieModel_Update None Fixtures.editV3 Fixtures.moviesV4
        = (Fixtures.moviesV4, Fixtures.editV3, Some err)
        /\ (@None error = None -> err = ErrEditConflict))
  /\ (UserModel_Update None Fixtures.activatedV1 Fixtures.usersV1
      = (Fixtures.usersV2, Fixtures.activatedV2, None)
      /\ exists row row',
           Fixtures.usersV1 !! 7 = Some row
           /\ Version row = 1
           /\ Fixtures.usersV2 !! 7 = Some row'
           /\ Version row' = Version row + 1
           /\ Version Fixtures.activatedV2 = Version row')
  /\ (exists err,
        UserModel_Update None Fixtures.activatedV1 Fixtures.usersV2
        = (Fixtures.usersV2, Fixtures.activatedV1, Some err)
        /\ (@None error = None -> err = ErrEditConflict)).
Proof.
  destruct conditional_update_increments_or_rejects as [Hm [Hmx [Hu Hux]]].
  assert (MovieModel_Update None Fixtures.editV3 Fixtures.moviesV3
          = (Fixtures.moviesV4, Fixtures.editV4, None)) as Hrun
    by (vm_compute; reflexivity).
  assert (UserModel_Update None Fixtures.activatedV1 Fixtures.usersV1
          = (Fixtures.usersV2, Fixtures.activatedV2, None)) as Hrun'
    by (vm_compute; reflexivity).
  split; [split; [exact Hrun | exact (Hm _ _ _ _ _ Hrun)]|].
  split; [apply (Hmx None Fixtures.editV3 Fixtures.moviesV4 Fixtures.editV4);
          [reflexivity | discriminate]|].
  split; [split; [exact Hrun' | exact (Hu _ _ _ _ _ Hrun')]|].
  apply (Hux None Fixtures.activatedV1 Fixtures.usersV2 Fixtures.activatedV2);
    [reflexivity | discriminate].
Defined.

(** ** ConcurrencyGuard: who reports what *)

Lemma MovieModel_Update_absent movie ms :
  ms !! MovieID movie = None ->
  MovieModel_Update None movie ms = (ms, movie, Some ErrEditConflict).
Proof.
  intros Hrow. unfold MovieModel_Update, MovieModel_Update_query.
  rewrite Hrow. reflexivity.
Qed.

Lemma MovieModel_Get_absent id ms :
  ms !! id = None -> MovieModel_Get None id ms = Err ErrRecordNotFound.
Proof.
  intros Hrow. unfold MovieModel_Get. rewrite Hrow.
  destruct (id <? 1); reflexivity.
Qed.

Lemma MovieModel_Get_present id ms movie :
  1 <= id -> ms !! id = Some movie -> MovieModel_Get None id ms = Ok movie.
Proof.
  intros Hid Hrow. unfold MovieModel_Get. rewrite Hrow.
  destruct (id <? 1) eqn:Hlt; [apply Z.ltb_lt in Hlt; lia | reflexivity].
Qed.

Lemma readIDParam_Ok parsed id : readIDParam parsed = Ok id -> 1 <= id.
Proof.
  unfold readIDParam. destruct parsed as [n|e]; [|discriminate].
  destruct (n <? 1) eqn:Hlt; [discriminate|].
  intros [= <-]. apply Z.ltb_ge in Hlt. exact Hlt.
Qed.

(** C5: the update operation tells a stale version from nothing else.
    When the id is stored under another version it answers with the edit
    conflict, and it gives the very same answer when the id is not stored
    at all: it never reports not-found itself.  Not-found comes from the
    read that the handler makes first: for an id that is not stored the
    handler answers 404 after that read and issues no update; and when the
    id is stored but its version has moved on between the handler's read
    and its write, the handler answers with the 409 edit conflict. *)
Theorem update_conflict_and_not_found_paths :
  (forall movie ms row,
      ms !! MovieID movie = Some row ->
      MovieVersion row <> MovieVersion movie ->
      MovieModel_Update None movie ms = (ms, movie, Some ErrEditConflict))
  /\ (forall movie ms,
        ms !! MovieID movie = None ->
        MovieModel_Update None movie ms = (ms, movie, Some ErrEditConflict))
  /\ (forall app io r w id,
        readIDParam (parsedID io) = Ok id ->
        getFault io = None ->
        movies w !! id = None ->
        updateMovieHandler app io r w = notFoundResponse r (emit (EvMoviesGet id) w))
  /\ (forall app io r w id stored input row,
        readIDParam (parsedID io) = Ok id ->
        getFault io = None ->
        updateFault io = None ->
        movies w !! id = Some stored ->
        MovieID stored = id ->
        decoded io = Ok input ->
        validator.Valid (ValidateMovie (nowYear io) validator.New
                           (applyInput input stored)) = true ->
        concurrent io (movies w) !! id = Some row ->
        MovieVersion row <> MovieVersion stored ->
        updateMovieHandler app io r w
        = editConflictResponse r
            (emit (EvMoviesUpdate id (MovieVersion stored))
               (setMovies (concurrent io (movies w)) (emit (EvMoviesGet id) w)))).
Proof.
  split; [|split; [|split]].
  - intros movie ms row Hrow Hv.
    destruct (MovieModel_Update_mismatch None movie ms row Hrow Hv) as [err [Hrun Herr]].
    rewrite Hrun, (Herr eq_refl). reflexivity.
  - exact MovieModel_Update_absent.
  - intros app io r w id Hid Hfault Hrow.
    unfold updateMovieHandler. rewrite Hid, Hfault. cbn [movies emit].
    rewrite (MovieModel_Get_absent _ _ Hrow). reflexivity.
  - intros app io r w id stored input row Hid Hget Hupd Hrow Hkey Hdec Hvalid Hrow' Hv.
    unfold updateMovieHandler. rewrite Hid, Hget. cbn [movies emit].
    rewrite (MovieModel_Get_present _ _ _ (readIDParam_Ok _ _ Hid) Hrow).
    rewrite Hdec. cbv zeta. rewrite Hvalid. cbn [negb].
    cbn [movies emit setMovies]. rewrite Hupd.
    destruct (MovieModel_Update_mismatch None (applyInput input stored)
                (concurrent io (movies w)) row) as [err [Hrun Herr]].
    + cbn [applyInput MovieID]. rewrite Hkey. exact Hrow'.
    + exact Hv.
    + rewrite Hrun, (Herr eq_refl). cbn [applyInput MovieID MovieVersion].
      rewrite Hkey. reflexivity.
Qed.

Lemma update_conflict_and_not_found_paths_witness :
  MovieModel_Update None Fixtures.editV3 Fixtures.moviesV4
  = (Fixtures.moviesV4, Fixtures.editV3, Some ErrEditConflict)
  /\ MovieModel_Update None Fixtures.editV3 ∅ = (∅, Fixtures.editV3, Some ErrEditConflict)
  /\ trace (updateMovieHandler Fixtures.app0 (Fixtures.patchRuntime id)
              (Fixtures.request None) (Fixtures.worldWith ∅))
     = [EvMoviesGet 1;
        EvWriteJSON http_StatusNotFound
          (Message "the requested resource could not be found")]
  /\ trace (updateMovieHandler Fixtures.app0
              (Fixtures.patchRuntime (fun _ => Fixtures.moviesV4))
              (Fixtures.request None) (Fixtures.worldWith Fixtures.moviesV3))
     = [EvMoviesGet 1; EvMoviesUpdate 1 3;
        EvWriteJSON http_StatusConflict
          (Message "unable to update the record due to an edit conflict, please try again")].
Proof.
  destruct update_conflict_and_not_found_paths as [Hstale [Habsent [H404 H409]]].
  split; [apply (Hstale Fixtures.editV3 Fixtures.moviesV4 Fixtures.editV4);
          [reflexivity | discriminate]|].
  split; [apply (Habsent Fixtures.editV3 ∅); apply lookup_empty|].
  split.
  - rewrite (H404 Fixtures.app0 (Fixtures.patchRuntime id) (Fixtures.request None)
               (Fixtures.worldWith ∅) 1 eq_refl eq_refl (lookup_empty _)).
    reflexivity.
  - rewrite (H409 Fixtures.app0 (Fixtures.patchRuntime (fun _ => Fixtures.moviesV4))
               (Fixtures.request None) (Fixtures.worldWith Fixtures.moviesV3)
               1 Fixtures.storedV3
               {| inTitle := None; inYear := None; inRuntime := Some 113;
                  inGenres := None |}
               Fixtures.editV4
               eq_refl eq_refl eq_refl eq_refl eq_refl eq_refl
               ltac:(vm_compute; reflexivity) eq_refl ltac:(discriminate)).
    reflexivity.
Defined.

(** ** ClientThrottle: the sweep *)

(** C7: after a sweep tick, every entry last seen more than three minutes
    before the tick is gone from the registry, and every entry last seen
    within the three minutes is still there, unchanged. *)
Theorem sweep_evicts_exactly_the_stale :
  forall (w : World),
    (forall ip c,
        clients w !! ip = Some c ->
        time_Since (now w) (lastSeen c) > 3 * time_Minute ->
        clients (cleanupTick w) !! ip = None)
    /\ (forall ip c,
          clients w !! ip = Some c ->
          time_Since (now w) (lastSeen c) <= 3 * time_Minute ->
          clients (cleanupTick w) !! ip = Some c).
Proof.
  intros w. unfold cleanupTick, sweep. cbn [clients setClients]. split.
  - intros ip c Hc Hold. apply map_lookup_filter_None. right.
    intros c' Hc' Hkeep. cbn [snd] in Hkeep.
    rewrite Hc in Hc'. injection Hc' as <-. exact (Hkeep Hold).
  - intros ip c Hc Hfresh. apply map_lookup_filter_Some. split; [exact Hc|].
    cbn [snd]. lia.
Qed.

Lemma sweep_evicts_exactly_the_stale_witness :
  let w := Fixtures.worldOfClients Fixtures.twoClients in
  (clients w !! "stale" = Some Fixtures.staleClient
   /\ time_Since (now w) (lastSeen Fixtures.staleClient) > 3 * time_Minute
   /\ clients (cleanupTick w) !! "stale" = None)
  /\ (clients w !! "active" = Some Fixtures.activeClient
      /\ time_Since (now w) (lastSeen Fixtures.activeClient) <= 3 * time_Minute
      /\ clients (cleanupTick w) !! "active" = Some Fixtures.activeClient).
Proof.
  intros w.
  destruct (sweep_evicts_exactly_the_stale w) as [Hgone Hkept].
  assert (clients w !! "stale" = Some Fixtures.staleClient) as Hs
    by (vm_compute; reflexivity).
  assert (clients w !! "active" = Some Fixtures.activeClient) as Ha
    by (vm_compute; reflexivity).
  assert (time_Since (now w) (lastSeen Fixtures.staleClient) > 3 * time_Minute) as Hold
    by (vm_compute; reflexivity).
  assert (time_Since (now w) (lastSeen Fixtures.activeClient) <= 3 * time_Minute) as Hnew
    by (vm_compute; discriminate).
  split.
  - split; [exact Hs|]. split; [exact Hold|]. exact (Hgone _ _ Hs Hold).
  - split; [exact Ha|]. split; [exact Hnew|]. exact (Hkept _ _ Ha Hnew).
Defined.

(** ** ClientThrottle: the burst *)

Lemma Qc_div_nonneg (a b : Qc) : (0 ≤ a)%Qc -> (0 < b)%Qc -> (0 ≤ a / b)%Qc.
Proof.
  intros Ha Hb. apply (Qcmult_lt_0_le_reg_r _ _ b Hb).
  rewrite Qcmult_0_l, (Qcmult_comm (a / b) b), Qcmult_div_r; [exact Ha|].
  intros ->. exact (Qclt_not_eq _ _ Hb eq_refl).
Qed.

Lemma refill_nonneg (elapsed : Z) (R : Qc) :
  0 <= elapsed -> (0 ≤ R)%Qc ->
  (0 ≤ Qc_of_Z elapsed / Qc_of_Z time_Second * R)%Qc.
Proof.
  intros He HR.
  rewrite <- (Qcmult_0_l R). apply Qcmult_le_mono_nonneg_r; [exact HR|].
  apply Qc_div_nonneg.
  - rewrite <- Z2Qc_inj_0. exact (proj1 (Z2Qc_inj_le 0 elapsed) He).
  - rewrite <- Z2Qc_inj_0. apply (proj1 (Z2Qc_inj_lt 0 time_Second)). reflexivity.
Qed.

Lemma advance_holds R B t j lim :
  (0 ≤ R)%Qc -> j <= B -> holds R B t j lim ->
  rate.advance lim t = Qc_of_Z j.
Proof.
  intros HR HjB (Hlim & Hburst & Htok & Hlast). unfold rate.advance.
  rewrite Hlim, Hburst, Htok.
  destruct Hlast as [Hlast | ->].
  - rewrite Hlast, Z.sub_diag. change (0 `max` 0) with 0. rewrite Z2Qc_inj_0.
    unfold Qcdiv. rewrite !Qcmult_0_l, Qcplus_0_r.
    case_decide as Hlt; [|reflexivity].
    apply (proj2 (Z2Qc_inj_lt B j)) in Hlt. lia.
  - case_decide as Hlt; [reflexivity|].
    apply Qcnot_lt_le in Hlt. apply Qcle_antisym; [exact Hlt|].
    rewrite <- (Qcplus_0_r (Qc_of_Z B)) at 1.
    apply Qcplus_le_mono_l. apply refill_nonneg; [lia | exact HR].
Qed.

Lemma Allow_holds R B t j lim :
  (0 ≤ R)%Qc -> 0 <= j <= B -> holds R B t j lim ->
  (1 <= j -> exists lim', rate.Allow t lim = (true, lim') /\ holds R B t (j - 1) lim')
  /\ (j = 0 -> rate.Allow t lim = (false, lim)).
Proof.
  intros HR [Hj0 HjB] Hholds.
  pose proof (advance_holds R B t j lim HR HjB Hholds) as Hadv.
  destruct Hholds as (Hlim & Hburst & Htok & Hlast).
  unfold rate.Allow. rewrite Hadv. split.
  - intros H1. case_decide as Hle.
    + eexists. split; [reflexivity|].
      repeat split; cbn; [exact Hlim | exact Hburst | | by left].
      rewrite Z2Qc_inj_sub, Z2Qc_inj_1. reflexivity.
    + exfalso. apply Hle. rewrite <- Z2Qc_inj_1.
      exact (proj1 (Z2Qc_inj_le 1 j) H1).
  - intros ->. case_decide as Hle; [|reflexivity].
    rewrite <- Z2Qc_inj_1 in Hle. apply (proj2 (Z2Qc_inj_le 1 0)) in Hle. lia.
Qed.

Section Burst.
Variables (app : application) (r : Request) (name : string).

Local Abbreviation ip := (RemoteIP r).
Local Abbreviation R := (rps (limiter (cfg app))).
Local Abbreviation B := (burst (limiter (cfg app))).

Hypothesis limiter_enabled : enabled (limiter (cfg app)) = true.
Hypothesis rate_nonneg : (0 ≤ R)%Qc.
Hypothesis burst_nonneg : 0 <= B.

(** The create-if-absent and the refresh of [lastSeen] leave an entry
    with as many tokens as before. *)
Lemma registry_touch j w :
  entryHolds app ip j w ->
  exists c,
    alter (fun c => {| limiter_ := limiter_ c; lastSeen := now w |}) ip
      (match clients w !! ip with
       | Some _ => clients w
       | None => <[ip := {| limiter_ := rate.NewLimiter R B; lastSeen := 0 |}]> (clients w)
       end) !! ip = Some c
    /\ lastSeen c = now w
    /\ holds R B (now w) j (limiter_ c).
Proof.
  unfold entryHolds. destruct (clients w !! ip) as [c|] eqn:Hc.
  - intros Hh. eexists. rewrite lookup_alter_eq, Hc. cbn.
    split; [reflexivity|]. split; [reflexivity | exact Hh].
  - intros ->. eexists. rewrite lookup_alter_eq, lookup_insert_eq. cbn.
    split; [reflexivity|]. split; [reflexivity|].
    repeat split. by right.
Qed.

Lemma entryHolds_emit e j w : entryHolds app ip j w -> entryHolds app ip j (emit e w).
Proof. exact id. Qed.

Lemma rateLimit_allows j w :
  1 <= j <= B -> entryHolds app ip j w ->
  exists w',
    rateLimit app (served name) r w = emit (EvServed name) w'
    /\ trace w' = trace w /\ now w' = now w /\ entryHolds app ip (j - 1) w'.
Proof.
  intros Hj Hentry. unfold rateLimit. rewrite limiter_enabled. cbv zeta.
  destruct (registry_touch j w Hentry) as (c & Hc & Hseen & Hh).
  rewrite Hc.
  destruct (Allow_holds R B (now w) j (limiter_ c) rate_nonneg ltac:(lia) Hh)
    as [Hallow _].
  destruct (Hallow ltac:(lia)) as (lim' & Hrun & Hh').
  rewrite Hrun. cbn [negb]. eexists. split; [reflexivity|].
  split; [reflexivity|]. split; [reflexivity|].
  unfold entryHolds. cbn [clients setClients now].
  rewrite lookup_insert_eq. exact Hh'.
Qed.

Lemma rateLimit_denies w :
  entryHolds app ip 0 w ->
  exists w',
    rateLimit app (served name) r w
    = emit (EvWriteJSON http_StatusTooManyRequests (Message "rate limit exceeded")) w'
    /\ trace w' = trace w /\ now w' = now w /\ entryHolds app ip 0 w'.
Proof.
  intros Hentry. unfold rateLimit. rewrite limiter_enabled. cbv zeta.
  destruct (registry_touch 0 w Hentry) as (c & Hc & Hseen & Hh).
  rewrite Hc.
  destruct (Allow_holds R B (now w) 0 (limiter_ c) rate_nonneg ltac:(lia) Hh)
    as [_ Hdeny].
  rewrite (Hdeny eq_refl). cbn [negb]. eexists. split; [reflexivity|].
  split; [reflexivity|]. split; [reflexivity|].
  unfold entryHolds. cbn [clients setClients now].
  rewrite lookup_insert_eq. exact Hh.
Qed.

(** The first [k] requests of a burst, while tokens last. *)
Lemma burst_admitted k j w :
  Z.of_nat k <= j <= B -> entryHolds app ip j w ->
  let w' := burstOf k (rateLimit app (served name)) r w in
  trace w' = trace w ++ repeat (EvServed name) k
  /\ now w' = now w /\ entryHolds app ip (j - Z.of_nat k) w'.
Proof.
  induction k as [|k IH]; intros Hk Hentry; cbv zeta.
  - cbn. rewrite app_nil_r, Z.sub_0_r. done.
  - destruct (IH ltac:(lia) Hentry) as (Htr & Hnow & Hent).
    cbn [burstOf].
    destruct (rateLimit_allows (j - Z.of_nat k) _ ltac:(lia) Hent)
      as (w' & Hrun & Htr' & Hnow' & Hent').
    rewrite Hrun. rewrite trace_emit, Htr', Htr, <- app_assoc.
    split; [|split].
    + f_equal. change (repeat (EvServed name) (S k)) with
        (EvServed name :: repeat (EvServed name) k).
      symmetry. apply repeat_cons.
    + cbn. congruence.
    + apply entryHolds_emit.
      replace (j - Z.of_nat (S k)) with (j - Z.of_nat k - 1) by lia. exact Hent'.
Qed.

(** Every further request of the burst, once the bucket is empty. *)
Lemma burst_denied k w :
  entryHolds app ip 0 w ->
  let w' := burstOf k (rateLimit app (served name)) r w in
  trace w' = trace w
             ++ repeat (EvWriteJSON http_StatusTooManyRequests
                          (Message "rate limit exceeded")) k
  /\ now w' = now w /\ entryHolds app ip 0 w'.
Proof.
  induction k as [|k IH]; intros Hentry; cbv zeta.
  - cbn. rewrite app_nil_r. done.
  - destruct (IH Hentry) as (Htr & Hnow & Hent).
    cbn [burstOf].
    destruct (rateLimit_denies _ Hent) as (w' & Hrun & Htr' & Hnow' & Hent').
    rewrite Hrun. rewrite trace_emit, Htr', Htr, <- app_assoc.
    split; [|split].
    + f_equal. cbn [repeat]. symmetry. apply repeat_cons.
    + cbn. congruence.
    + apply entryHolds_emit. exact Hent'.
Qed.

Lemma burstOf_add m k h w :
  burstOf (m + k) h r w = burstOf k h r (burstOf m h r w).
Proof.
  induction k as [|k IH]; [by rewrite Nat.add_0_r|].
  rewrite Nat.add_succ_r. cbn [burstOf]. by rewrite IH.
Qed.

End Burst.

(** C6: with the limiter enabled, when an identity whose bucket is full
    (a new identity, for one) sends more than B requests with no time
    passing between them, the first B reach the wrapped handler and every
    later one gets the 429 response.  With B = 4 and R = 2 per second,
    five requests are answered allow, allow, allow, allow, deny. *)
Theorem rateLimit_admits_exactly_the_burst :
  forall (app : application) (r : Request) (name : string) (w : World) (n : nat),
    enabled (limiter (cfg app)) = true ->
    (0 ≤ rps (limiter (cfg app)))%Qc ->
    0 <= burst (limiter (cfg app)) ->
    entryHolds app (RemoteIP r) (burst (limiter (cfg app))) w ->
    (Z.to_nat (burst (limiter (cfg app))) < n)%nat ->
    trace (burstOf n (rateLimit app (served name)) r w)
    = trace w
      ++ repeat (EvServed name) (Z.to_nat (burst (limiter (cfg app))))
      ++ repeat (EvWriteJSON http_StatusTooManyRequests (Message "rate limit exceeded"))
           (n - Z.to_nat (burst (limiter (cfg app)))).
Proof.
  intros app r name w n Hen HR HB Hfull Hn.
  set (B := burst (limiter (cfg app))) in *.
  replace n with (Z.to_nat B + (n - Z.to_nat B))%nat at 1 by lia.
  rewrite burstOf_add.
  destruct (burst_admitted app r name Hen HR (Z.to_nat B) B w ltac:(lia) Hfull)
    as (Htr & Hnow & Hent).
  replace (B - Z.of_nat (Z.to_nat B)) with 0 in Hent by lia.
  destruct (burst_denied app r name Hen HR HB (n - Z.to_nat B) _ Hent)
    as (Htr' & _ & _).
  rewrite Htr', Htr, <- app_assoc. reflexivity.
Qed.

Lemma rateLimit_admits_exactly_the_burst_witness :
  clients Fixtures.world0 !! "c1" = None
  /\ decisions (trace (burstOf 5 (rateLimit Fixtures.app0 (served "next"))
                        (Fixtures.request None) Fixtures.world0))
     = [true; true; true; true; false].
Proof.
  split; [apply lookup_empty|].
  rewrite (rateLimit_admits_exactly_the_burst Fixtures.app0 (Fixtures.request None)
             "next" Fixtures.world0 5).
  - reflexivity.
  - reflexivity.
  - vm_compute. discriminate.
  - vm_compute. discriminate.
  - reflexivity.
  - vm_compute. lia.
Defined.

(** The same burst, run: the model computes the decisions directly. *)
Example burst_of_five_runs :
  decisions (trace (burstOf 5 (rateLimit Fixtures.app0 (served "next"))
                      (Fixtures.request None) Fixtures.world0))
  = [true; true; true; true; false].
Proof. vm_compute. reflexivity. Qed.

(** ** ShutdownCoordinator: background tasks *)

Lemma fold_print_fields errs s :
  let s' := fold_left (fun s err => logger_Print (PrintError err) s) errs s in
  serveG s' = serveG s /\ shutdownG s' = shutdownG s
  /\ shutdownResult s' = shutdownResult s /\ inFlight s' = inFlight s
  /\ wg s' = wg s /\ running s' = running s
  /\ logs s' = logs s ++ map PrintError errs.
Proof.
  revert s. induction errs as [|err errs IH]; intros s; cbn.
  - rewrite app_nil_r. done.
  - destruct (IH (logger_Print (PrintError err) s)) as (-> & -> & -> & -> & -> & -> & ->).
    cbn. rewrite <- app_assoc. done.
Qed.

Lemma backgroundGoroutine_fields fn s :
  let s' := backgroundGoroutine fn s in
  serveG s' = serveG s /\ shutdownG s' = shutdownG s
  /\ shutdownResult s' = shutdownResult s /\ inFlight s' = inFlight s
  /\ wg s' = wg s - 1 /\ running s' = running s
  /\ logs s' = logs s ++ map PrintError (logged fn)
                ++ match outcome fn with
                   | Panics value => [PrintError (ErrOther value)]
                   | Returns => []
                   end.
Proof.
  unfold backgroundGoroutine.
  destruct (fold_print_fields (logged fn) s) as (Hm & Hg & Hr & Hf & Hw & Hrun & Hl).
  destruct (outcome fn) as [|value]; cbn; rewrite Hm, Hg, Hr, Hf, Hw, Hrun, Hl.
  - rewrite app_nil_r. repeat split; lia.
  - rewrite <- app_assoc. repeat split; lia.
Qed.

Lemma alive_backgroundGoroutine fn s :
  alive (backgroundGoroutine fn s) = alive s.
Proof.
  unfold alive. by destruct (backgroundGoroutine_fields fn s) as (-> & _).
Qed.

(** Finishing every running task, one after the other, brings the
    counter down by their number and is always possible while the process
    is alive. *)
Lemma run_finish_all s :
  alive s = true ->
  exists s',
    run (repeat (Finish 0) (length (running s))) s = Some s'
    /\ wg s' = wg s - Z.of_nat (length (running s))
    /\ running s' = [] /\ alive s' = true
    /\ shutdownG s' = shutdownG s /\ serveG s' = serveG s.
Proof.
  remember (length (running s)) as n eqn:Hn. revert s Hn.
  induction n as [|n IH]; intros s Hn Halive.
  - exists s. destruct (running s); [|discriminate]. cbn.
    repeat split; try done; lia.
  - destruct (running s) as [|fn rest] eqn:Hrun; [discriminate|].
    cbn [repeat run]. unfold step. rewrite Halive, Hrun. cbn [negb].
    change ((fn :: rest) !! 0%nat) with (Some fn).
    change (delete 0%nat (fn :: rest)) with rest.
    pose proof (backgroundGoroutine_fields fn (setRunning rest s)) as Hf.
    cbv zeta in Hf.
    set (s1 := backgroundGoroutine fn (setRunning rest s)) in *.
    destruct Hf as (Hm & Hg & _ & _ & Hw & Hr & _).
    cbn [setRunning serveG shutdownG wg running] in Hm, Hg, Hw, Hr.
    destruct (IH s1) as (s' & Hrun' & Hw' & Hr' & Ha' & Hg' & Hm').
    + rewrite Hr. cbn in Hn. lia.
    + unfold s1. rewrite alive_backgroundGoroutine. exact Halive.
    + exists s'. split; [exact Hrun'|].
      repeat split; try congruence. lia.
Qed.

(** ** ShutdownCoordinator: the invariant *)

Lemma coordinated_initServer : coordinated initServer.
Proof. split; [reflexivity|]. cbn. split; [reflexivity | by left]. Qed.

(** Closes the cases of the invariant once the goroutine states are known. *)
Ltac close_case :=
  unfold coordinated, alive in *; cbn in *;
  try discriminate;
  try (intuition (try congruence; try lia; eauto; fail));
  try (repeat match goal with
              | H : _ \/ _ |- _ => destruct H
              | H : _ /\ _ |- _ => destruct H
              | H : exists _, _ |- _ => destruct H
              end;
       subst; try discriminate; try congruence;
       intuition (try congruence; try lia; eauto; fail)).

Lemma step_coordinated a s s' :
  step a s = Some s' -> coordinated s -> coordinated s'.
Proof.
  unfold step. destruct (alive s) eqn:Halive; [|discriminate]. cbn [negb].
  destruct a as [fn|i| | |res|err| |].
  - (* Spawn *)
    destruct (inFlight s) eqn:Hfl; [|discriminate]. intros [= <-] [Hwg Hg].
    split; [cbn; rewrite length_app; cbn; lia|].
    destruct s as [m g r fl n ts lg]. destruct m, g; close_case.
  - (* Finish *)
    destruct (running s !! i) as [fn|] eqn:Hi; [|discriminate].
    intros [= <-] [Hwg Hg].
    pose proof (backgroundGoroutine_fields fn (setRunning (delete i (running s)) s)) as Hf.
    cbv zeta in Hf. unfold coordinated.
    rewrite alive_backgroundGoroutine.
    destruct Hf as (-> & -> & -> & -> & -> & -> & _).
    cbn [setRunning serveG shutdownG shutdownResult inFlight wg running alive].
    assert (length (delete i (running s)) = (length (running s) - 1)%nat) as Hlen
      by (apply length_delete; eauto).
    assert (length (running s) <> 0)%nat as Hpos
      by (intros H0; apply length_zero_iff_nil in H0; rewrite H0 in Hi; discriminate).
    split; [lia|].
    destruct s as [m g r fl n ts lg]. destruct m, g; close_case.
  - (* Signal *)
    intros Hstep Hinv. destruct s as [m g r fl n ts lg].
    destruct m, g; cbn in Hstep; try discriminate; injection Hstep as <-; close_case.
  - (* CallShutdown *)
    intros Hstep Hinv. destruct s as [m g r fl n ts lg].
    destruct m, g; cbn in Hstep; try discriminate; injection Hstep as <-; close_case.
  - (* ShutdownReturns *)
    intros Hstep Hinv. destruct s as [m g r fl n ts lg].
    destruct m, g, res; cbn in Hstep; try discriminate; injection Hstep as <-; close_case.
  - (* ListenReturns *)
    intros Hstep Hinv. destruct s as [m g r fl n ts lg].
    destruct m, g, (errors_Is err http_ErrServerClosed) eqn:Herr;
      cbn in Hstep; rewrite ?Herr in Hstep; try discriminate;
      injection Hstep as <-; close_case.
  - (* Rendezvous *)
    intros Hstep Hinv. destruct s as [m g r fl n ts lg].
    destruct m, g; cbn in Hstep; try discriminate; injection Hstep as <-; close_case.
  - (* WaitReturns *)
    intros Hstep Hinv. destruct s as [m g r fl n ts lg].
    destruct m, g; cbn in Hstep; try discriminate;
      destruct (n =? 0) eqn:Hz; try discriminate; apply Z.eqb_eq in Hz;
      injection Hstep as <-; close_case.
Qed.

Lemma run_coordinated schedule s s' :
  run schedule s = Some s' -> coordinated s -> coordinated s'.
Proof.
  revert s. induction schedule as [|a rest IH]; intros s; cbn.
  - intros [= <-]. done.
  - destruct (step a s) as [s1|] eqn:Hstep; [|discriminate].
    intros Hrun Hinv. exact (IH _ Hrun (step_coordinated _ _ _ Hstep Hinv)).
Qed.

(** C8: a background task is registered when it is spawned, and its
    goroutine deregisters it exactly once however the function ends: when
    it panics, the panic is caught at the end of the goroutine and logged
    as an error, and the counter still goes down by one.  So the counter
    is always the number of unfinished tasks, and a shutdown goroutine
    that waits for the counter gets past its wait as soon as the tasks,
    panicking ones included, have run to their end. *)
Theorem background_task_always_deregisters :
  (forall fn s, wg (background fn s) = wg s + 1)
  /\ (forall fn s, wg (backgroundGoroutine fn s) = wg s - 1)
  /\ (forall fn s value,
        outcome fn = Panics value ->
        logs (backgroundGoroutine fn s)
        = logs s ++ map PrintError (logged fn) ++ [PrintError (ErrOther value)])
  /\ (forall schedule s,
        run schedule initServer = Some s ->
        wg s = Z.of_nat (length (running s)))
  /\ (forall s,
        alive s = true ->
        shutdownG s = WaitGroupWait ->
        wg s = Z.of_nat (length (running s)) ->
        exists s',
          run (repeat (Finish 0) (length (running s)) ++ [WaitReturns]) s = Some s'
          /\ shutdownG s' = SendNil /\ wg s' = 0).
Proof.
  split; [|split; [|split; [|split]]].
  - reflexivity.
  - intros fn s. by destruct (backgroundGoroutine_fields fn s) as (_ & _ & _ & _ & -> & _).
  - intros fn s value Hpanic.
    destruct (backgroundGoroutine_fields fn s) as (_ & _ & _ & _ & _ & _ & ->).
    rewrite Hpanic. reflexivity.
  - intros schedule s Hrun.
    exact (proj1 (run_coordinated _ _ _ Hrun coordinated_initServer)).
  - intros s Halive Hwait Hwg.
    destruct (run_finish_all s Halive) as (s1 & Hrun & Hwg1 & Hnone & Halive1 & Hg1 & Hm1).
    assert (step WaitReturns s1 = Some (setGoroutines (serveG s1) SendNil s1)) as Hstep.
    { unfold step. rewrite Halive1, Hg1, Hwait. cbn [negb].
      replace (wg s1 =? 0) with true by (symmetry; apply Z.eqb_eq; lia). reflexivity. }
    exists (setGoroutines (serveG s1) SendNil s1). split; [|split].
    + clear -Hrun Hstep. revert Hrun. generalize (repeat (Finish 0) (length (running s))).
      intros schedule. revert s. induction schedule as [|a rest IH]; intros s; cbn.
      * intros [= ->]. by rewrite Hstep.
      * destruct (step a s); [apply IH | discriminate].
    + reflexivity.
    + cbn. lia.
Qed.

Lemma background_task_always_deregisters_witness :
  exists s,
    run [Spawn Fixtures.slowMail; Spawn Fixtures.panickingMail; Signal; CallShutdown;
         ListenReturns http_ErrServerClosed; ShutdownReturns None] initServer = Some s
    /\ alive s = true /\ shutdownG s = WaitGroupWait /\ wg s = 2
    /\ exists s',
         run (repeat (Finish 0) (length (running s)) ++ [WaitReturns]) s = Some s'
         /\ shutdownG s' = SendNil /\ wg s' = 0.
Proof.
  eexists. split; [reflexivity|]. split; [reflexivity|]. split; [reflexivity|].
  split; [reflexivity|].
  destruct background_task_always_deregisters as (_ & _ & _ & _ & Hdrain).
  apply Hdrain; reflexivity.
Defined.

(** ** ShutdownCoordinator: the error of the listener *)

(** C1, as the claim words it, fails: when [srv.Shutdown] fails while a
    background task is still running, [serve] receives the error and
    returns it with the counter still at one; the process then exits and
    the drain never completes. *)
Lemma shutdown_error_skips_drain_counterexample :
  ~ (forall schedule s err,
        run schedule initServer = Some s ->
        serveG s = ReturnedShutdownError err ->
        wg s = 0).
Proof.
  intros claim.
  specialize (claim Fixtures.failedStop _ Fixtures.deadlineExceeded eq_refl eq_refl).
  vm_compute in claim. discriminate claim.
Qed.

(** C1, amended: an error of [srv.Shutdown] is never dropped, and it is
    what [serve] returns: once [Shutdown] has failed, [serve] cannot return
    nil, the shutdown goroutine cannot get past its send unless [serve]
    has received that very error, and an error returned after the receive
    is the one [Shutdown] gave.  The error is handed over before the drain
    wait, not after it: the receive that makes [serve] return it is enabled
    whatever the counter is, and leaves the counter as it is.  Only when
    [Shutdown] succeeds does [serve] return after the drain: it returns nil
    with the counter at zero and no task unfinished. *)
Theorem shutdown_error_is_reported_before_drain :
  forall schedule s,
    run schedule initServer = Some s ->
    (forall err, serveG s = ReturnedShutdownError err ->
                 shutdownResult s = Some (Some err))
    /\ (forall err, shutdownResult s = Some (Some err) ->
                    serveG s <> ReturnedNil
                    /\ (pastErrorSend (shutdownG s) ->
                        serveG s = ReturnedShutdownError err))
    /\ (forall err, shutdownG s = SendShutdownError err ->
                    serveG s = ReceiveShutdownError ->
                    exists s', step Rendezvous s = Some s'
                               /\ serveG s' = ReturnedShutdownError err
                               /\ wg s' = wg s /\ running s' = running s)
    /\ (serveG s = ReturnedNil ->
        shutdownResult s = Some None /\ wg s = 0 /\ running s = []).
Proof.
  intros schedule s Hrun.
  pose proof (run_coordinated _ _ _ Hrun coordinated_initServer) as [Hwg Hg].
  split; [|split; [|split]].
  - intros err Hret. destruct s as [m g r fl n ts lg].
    destruct g; close_case.
  - intros err Hres. split.
    + intros Hnil. destruct s as [m g r fl n ts lg]. destruct g; close_case.
    + intros Hpast. destruct s as [m g r fl n ts lg].
      destruct Hpast as [Hp|[Hp|Hp]]; cbn in Hp; subst g; close_case.
  - intros err Hsend Hrecv. unfold step, alive. rewrite Hrecv, Hsend. cbn [negb].
    eexists. split; [reflexivity|]. repeat split.
  - intros Hnil. destruct s as [m g r fl n ts lg].
    destruct g; close_case.
    destruct Hg as (Hres & Hzero & _). repeat split; try done.
    apply length_zero_iff_nil. lia.
Qed.

Lemma shutdown_error_is_reported_before_drain_witness :
  (run Fixtures.failedStop initServer = Some Fixtures.afterFailedStop
   /\ serveG Fixtures.afterFailedStop = ReturnedShutdownError Fixtures.deadlineExceeded
   /\ shutdownResult Fixtures.afterFailedStop = Some (Some Fixtures.deadlineExceeded)
   /\ wg Fixtures.afterFailedStop = 1)
  /\ (run Fixtures.cleanStop initServer = Some Fixtures.afterCleanStop
      /\ serveG Fixtures.afterCleanStop = ReturnedNil
      /\ shutdownResult Fixtures.afterCleanStop = Some None
      /\ wg Fixtures.afterCleanStop = 0
      /\ running Fixtures.afterCleanStop = []).
Proof.
  assert (run Fixtures.failedStop initServer = Some Fixtures.afterFailedStop) as Hfailed
    by (lazy; reflexivity).
  assert (run Fixtures.cleanStop initServer = Some Fixtures.afterCleanStop) as Hclean
    by (lazy; reflexivity).
  pose proof (shutdown_error_is_reported_before_drain _ _ Hfailed) as (Herr & _).
  pose proof (shutdown_error_is_reported_before_drain _ _ Hclean) as (_ & _ & _ & Hnil).
  split.
  - split; [exact Hfailed|]. split; [reflexivity|].
    split; [exact (Herr Fixtures.deadlineExceeded eq_refl) | reflexivity].
  - split; [exact Hclean|]. split; [reflexivity|]. exact (Hnil eq_refl).
Defined.

(** * Part III: further properties of the code *)

(** ** [validator] *)

Lemma size_list_to_set_le (values : list string) :
  (size (list_to_set values : gset string) <= length values)%nat
  /\ (size (list_to_set values : gset string) = length values -> NoDup values).
Proof.
  induction values as [|x values [IHle IHeq]]; cbn [length].
  - split; [by rewrite list_to_set_nil, size_empty | intros _; constructor].
  - rewrite list_to_set_cons.
    destruct (decide (x ∈ values)) as [Hin|Hout].
    + assert ({[x]} ∪ list_to_set values = (list_to_set values : gset string)) as ->
        by (apply subseteq_union_1_L, singleton_subseteq_l, elem_of_list_to_set, Hin).
      split; [lia|]. intros Heq. lia.
    + rewrite size_union, size_singleton
        by (apply disjoint_singleton_l; rewrite elem_of_list_to_set; exact Hout).
      split; [lia|]. intros Heq. constructor; [exact Hout|]. apply IHeq. lia.
Qed.

Lemma validator_Unique_NoDup (values : list string) :
  validator.Unique values = true <-> NoDup values.
Proof.
  unfold validator.Unique. rewrite Nat.eqb_eq. split.
  - intros Heq. apply size_list_to_set_le. symmetry. exact Heq.
  - intros Hnd. symmetry. by apply size_list_to_set.
Qed.

(** X1: [Unique] holds of a slice exactly when no value occurs in it
    twice. *)
Theorem Unique_iff_NoDup :
  forall values : list string, validator.Unique values = true <-> NoDup values.
Proof. exact validator_Unique_NoDup. Qed.

Lemma validator_In_iff value list :
  validator.In value list = true <-> value ∈ list.
Proof.
  induction list as [|x rest IH]; cbn.
  - split; [discriminate | intros H; inversion H].
  - destruct (String.eqb value x) eqn:Heq.
    + apply String.eqb_eq in Heq as ->. split; [intros _; left | reflexivity].
    + apply String.eqb_neq in Heq. rewrite IH. split; [by right|].
      intros H. inversion H; subst; [congruence | assumption].
Qed.

Lemma Errors_AddError v key message :
  validator.Errors (validator.AddError v key message) !! key
  = Some (default message (validator.Errors v !! key))
  /\ (forall other, other <> key ->
        validator.Errors (validator.AddError v key message) !! other
        = validator.Errors v !! other).
Proof.
  unfold validator.AddError.
  destruct (validator.Errors v !! key) as [old|] eqn:Hk; cbn.
  - split; [exact Hk | reflexivity].
  - split; [apply lookup_insert_eq|]. intros other Hne. by apply lookup_insert_ne.
Qed.

Lemma Errors_Check_keeps v ok key message field old :
  validator.Errors v !! field = Some old ->
  validator.Errors (validator.Check v ok key message) !! field = Some old.
Proof.
  intros Hold. unfold validator.Check. destruct ok; cbn; [exact Hold|].
  destruct (Errors_AddError v key message) as [Hkey Hother].
  destruct (decide (field = key)) as [->|Hne].
  - rewrite Hkey, Hold. reflexivity.
  - rewrite (Hother _ Hne). exact Hold.
Qed.

Lemma Errors_Check_records v key message :
  validator.Errors v !! key = None ->
  validator.Errors (validator.Check v false key message) !! key = Some message.
Proof.
  intros Hnone. cbn. destruct (Errors_AddError v key message) as [Hkey _].
  rewrite Hkey, Hnone. reflexivity.
Qed.

(** X2: a validator only ever gains errors, and the first message recorded
    for a field stays: after any [Check], every message that was there is
    still there unchanged, a failed check on a field without a message
    records its message, and the validator is valid exactly when it was
    valid before and the check passed. *)
Theorem Check_keeps_first_error :
  forall (v : validator.Validator) (ok : bool) (key message : string),
    (forall field old,
        validator.Errors v !! field = Some old ->
        validator.Errors (validator.Check v ok key message) !! field = Some old)
    /\ (ok = false -> validator.Errors v !! key = None ->
        validator.Errors (validator.Check v ok key message) !! key = Some message)
    /\ (ok = true -> validator.Check v ok key message = v)
    /\ validator.Valid (validator.Check v ok key message)
       = validator.Valid v && ok.
Proof.
  intros v ok key message. split; [|split; [|split]].
  - intros field old. apply Errors_Check_keeps.
  - intros ->. apply Errors_Check_records.
  - intros ->. reflexivity.
  - apply Valid_Check.
Qed.

Lemma Check_keeps_first_error_witness :
  let v := validator.Check validator.New false "genres" "must be provided" in
  validator.Errors (validator.Check v false "genres" "must contain at least 1 genre")
    !! "genres" = Some "must be provided"
  /\ validator.Errors v !! "genres" = Some "must be provided".
Proof.
  intros v.
  destruct (Check_keeps_first_error validator.New false "genres" "must be provided")
    as (_ & Hfirst & _).
  pose proof (Hfirst eq_refl (lookup_empty _)) as Hv. fold v in Hv.
  split; [|exact Hv].
  destruct (Check_keeps_first_error v false "genres" "must contain at least 1 genre")
    as (Hkeep & _).
  exact (Hkeep _ _ Hv).
Defined.

(** ** [data]: validation *)

(** X3: a movie passes [ValidateMovie] exactly when its title is not empty
    and at most 500 bytes long, its year is from 1888 to the current year,
    its runtime is positive, and its genres are a non-nil slice of one to
    five values without duplicates. *)
Theorem ValidateMovie_Valid_iff :
  forall (nowYear : Z) (movie : Movie),
    validator.Valid (ValidateMovie nowYear validator.New movie) = true
    <-> Title movie <> ""
        /\ len (Title movie) <= 500
        /\ 1888 <= Year movie <= nowYear
        /\ 0 < Runtime movie
        /\ exists genres,
             Genres movie = Some genres
             /\ (1 <= length genres <= 5)%nat
             /\ NoDup genres.
Proof.
  intros nowYear movie. unfold ValidateMovie, data.Check.
  rewrite !Valid_Check, Valid_New. cbn [andb].
  rewrite !andb_true_iff, !negb_true_iff, validator_Unique_NoDup.
  rewrite String.eqb_neq, !Z.eqb_neq, !Z.leb_le, !Z.geb_le, Z.gtb_lt, bool_decide_eq_true.
  destruct (Genres movie) as [genres|]; cbn [lenGenres default].
  - split.
    + intros ((((((((((Ht & Hl) & Hy0) & Hy1) & Hy2) & Hr0) & Hr1) & _) & Hg1) & Hg5) & Hnd).
      repeat split; try assumption; try lia.
      exists genres. repeat split; try assumption; lia.
    + intros (Ht & Hl & [Hy1 Hy2] & Hr & (g & [= <-] & [Hg1 Hg5] & Hnd)).
      repeat split; try assumption; try lia. discriminate.
  - split.
    + intros ((((((((((_ & _) & _) & _) & _) & _) & _) & Hnil) & _) & _) & _).
      contradiction.
    + intros (_ & _ & _ & _ & (g & Hg & _)). discriminate.
Qed.

(** Of the checks on the genres, the first that fails gives the message:
    a nil slice is reported as not provided. *)
Lemma ValidateMovie_nil_genres_message nowYear movie :
  Genres movie = None ->
  validator.Errors (ValidateMovie nowYear validator.New movie) !! "genres"
  = Some "must be provided".
Proof.
  intros Hnil. unfold ValidateMovie, data.Check. rewrite Hnil. cbn [lenGenres default].
  set (v7 := validator.Check _ (Runtime movie >? 0) _ _).
  assert (validator.Errors v7 !! "genres" = None) as Hnone.
  { subst v7. unfold validator.Check, validator.AddError.
    repeat match goal with
           | |- context [if negb ?b then _ else _] => destruct b; cbn
           | |- context [match ?m !! ?k with _ => _ end] =>
               destruct (m !! k) eqn:?; cbn
           end;
      rewrite ?lookup_insert_ne by discriminate; try apply lookup_empty;
      try assumption. }
  change (bool_decide (@None (list string) ≠ None)) with false.
  do 3 apply Errors_Check_keeps.
  exact (Errors_Check_records v7 "genres" "must be provided" Hnone).
Qed.

(** ** [data]: filters *)

Lemma ValidateFilters_Valid f :
  validator.Valid (ValidateFilters validator.New f) = true
  <-> 1 <= Page f <= 10000000 /\ 1 <= PageSize f <= 100
      /\ Sort f ∈ SortSafelist f.
Proof.
  unfold ValidateFilters, data.Check. rewrite !Valid_Check, Valid_New. cbn [andb].
  rewrite !andb_true_iff, validator_In_iff, !Z.leb_le, !Z.gtb_lt. intuition lia.
Qed.

Lemma substring_whole s : String.substring 0 (String.length s) s = s.
Proof. induction s as [|c s IH]; cbn; [reflexivity | by rewrite IH]. Qed.

Lemma strings_HasPrefix_append s prefix :
  strings_HasPrefix s prefix = true ->
  s = prefix +:+ String.substring (String.length prefix)
                   (String.length s - String.length prefix) s.
Proof.
  revert s. induction prefix as [|p prefix IH]; intros s; cbn.
  - intros _. rewrite Nat.sub_0_r. symmetry. apply substring_whole.
  - destruct s as [|c s]; [discriminate|]. intros H.
    apply andb_prop in H as [Hc Hs]. apply Ascii.eqb_eq in Hc as ->.
    cbn. unfold String.append; fold String.append. f_equal. exact (IH s Hs).
Qed.

Lemma sortColumn_loop f safelist :
  Sort f ∈ safelist ->
  (fix loop (safelist : list string) : orPanic string :=
     match safelist with
     | [] => Panicked ("unsafe sort parameter: " +:+ Sort f)
     | safeValue :: rest =>
         if String.eqb (Sort f) safeValue
         then Returned (strings_TrimPrefix (Sort f) "-")
         else loop rest
     end) safelist = Returned (strings_TrimPrefix (Sort f) "-").
Proof.
  induction safelist as [|x rest IH]; intros Hin; [inversion Hin|].
  destruct (String.eqb (Sort f) x) eqn:Heq; [reflexivity|].
  apply String.eqb_neq in Heq. apply IH.
  inversion Hin; subst; [congruence | assumption].
Qed.

Lemma sortColumn_loop_panics f safelist :
  Sort f ∉ safelist ->
  (fix loop (safelist : list string) : orPanic string :=
     match safelist with
     | [] => Panicked ("unsafe sort parameter: " +:+ Sort f)
     | safeValue :: rest =>
         if String.eqb (Sort f) safeValue
         then Returned (strings_TrimPrefix (Sort f) "-")
         else loop rest
     end) safelist = Panicked ("unsafe sort parameter: " +:+ Sort f).
Proof.
  induction safelist as [|x rest IH]; intros Hout; [reflexivity|].
  destruct (String.eqb (Sort f) x) eqn:Heq.
  - apply String.eqb_eq in Heq. exfalso. apply Hout. rewrite Heq. left.
  - apply IH. intros Hin. apply Hout. by right.
Qed.

(** X4: filters that pass [ValidateFilters] are safe to sort by:
    [sortColumn] does not panic, and the column and the direction it and
    [sortDirection] return are the sort value taken apart: the value is
    the column for [ASC] and [-] followed by the column for [DESC].
    [sortColumn] panics exactly when the sort value is not in the
    safelist, which is what [ValidateFilters] rejects. *)
Theorem validated_filters_sort_safely :
  forall f : Filters,
    (validator.Valid (ValidateFilters validator.New f) = true ->
       exists column,
         sortColumn f = Returned column
         /\ (sortDirection f = "ASC" /\ Sort f = column
             \/ sortDirection f = "DESC" /\ Sort f = "-" +:+ column))
    /\ (Sort f ∉ SortSafelist f ->
          sortColumn f = Panicked ("unsafe sort parameter: " +:+ Sort f)
          /\ validator.Valid (ValidateFilters validator.New f) = false).
Proof.
  intros f. split.
  - intros Hvalid. apply ValidateFilters_Valid in Hvalid as (_ & _ & Hin).
    exists (strings_TrimPrefix (Sort f) "-"). split.
    + unfold sortColumn. exact (sortColumn_loop f _ Hin).
    + unfold sortDirection, strings_TrimPrefix.
      destruct (strings_HasPrefix (Sort f) "-") eqn:Hprefix.
      * right. split; [reflexivity|]. exact (strings_HasPrefix_append _ _ Hprefix).
      * left. split; reflexivity.
  - intros Hout. split.
    + unfold sortColumn. exact (sortColumn_loop_panics f _ Hout).
    + apply not_true_is_false. intros Hvalid.
      apply ValidateFilters_Valid in Hvalid as (_ & _ & Hin). exact (Hout Hin).
Qed.

Lemma wrapInt_in_range bits z :
  0 < bits -> - 2 ^ (bits - 1) <= z < 2 ^ (bits - 1) -> wrapInt bits z = z.
Proof.
  intros Hbits Hz. unfold wrapInt.
  assert (2 ^ bits = 2 * 2 ^ (bits - 1)) as Hpow.
  { replace bits with (Z.succ (bits - 1)) at 1 by lia. apply Z.pow_succ_r. lia. }
  rewrite Z.mod_small by lia. lia.
Qed.

(** X5: for filters that pass [ValidateFilters], [offset] is the exact
    product (page - 1) * page size, without wrap-around in an [int] of 32
    bits or more, and lies between 0 and 999,999,900; [limit] is between
    1 and 100. *)
Theorem validated_filters_offset_exact :
  forall (bits : Z) (f : Filters),
    32 <= bits ->
    validator.Valid (ValidateFilters validator.New f) = true ->
    offset bits f = (Page f - 1) * PageSize f
    /\ 0 <= offset bits f <= 999999900
    /\ 1 <= limit f <= 100.
Proof.
  intros bits f Hbits Hvalid.
  apply ValidateFilters_Valid in Hvalid as (Hpage & Hsize & _).
  assert (2 ^ 31 <= 2 ^ (bits - 1)) as Hpow by (apply Z.pow_le_mono_r; lia).
  change (2 ^ 31) with 2147483648 in Hpow.
  assert (0 <= (Page f - 1) * PageSize f <= 999999900) as Hprod by nia.
  unfold offset, limit.
  rewrite (wrapInt_in_range bits (Page f - 1)) by lia.
  rewrite wrapInt_in_range by lia. lia.
Qed.

Lemma validated_filters_sort_safely_witness :
  validator.Valid (ValidateFilters validator.New Fixtures.newestFirst) = true
  /\ sortColumn Fixtures.newestFirst = Returned "year"
  /\ sortDirection Fixtures.newestFirst = "DESC"
  /\ sortColumn Fixtures.unsafeSort
     = Panicked "unsafe sort parameter: id; DROP TABLE movies"
  /\ validator.Valid (ValidateFilters validator.New Fixtures.unsafeSort) = false.
Proof.
  assert (validator.Valid (ValidateFilters validator.New Fixtures.newestFirst) = true)
    as Hvalid by (vm_compute; reflexivity).
  destruct (validated_filters_sort_safely Fixtures.newestFirst) as [Hsafe _].
  destruct (Hsafe Hvalid) as (column & Hcolumn & _).
  destruct (validated_filters_sort_safely Fixtures.unsafeSort) as [_ Hunsafe].
  assert (Sort Fixtures.unsafeSort ∉ SortSafelist Fixtures.unsafeSort) as Hout.
  { intros Hin. apply validator_In_iff in Hin. vm_compute in Hin. discriminate Hin. }
  destruct (Hunsafe Hout) as [Hpanic Hinvalid].
  split; [exact Hvalid|]. split; [reflexivity|]. split; [reflexivity|].
  split; [exact Hpanic | exact Hinvalid].
Defined.

Lemma validated_filters_offset_exact_witness :
  validator.Valid (ValidateFilters validator.New Fixtures.newestFirst) = true
  /\ offset 64 Fixtures.newestFirst = 40
  /\ limit Fixtures.newestFirst = 20.
Proof.
  assert (validator.Valid (ValidateFilters validator.New Fixtures.newestFirst) = true)
    as Hvalid by (vm_compute; reflexivity).
  destruct (validated_filters_offset_exact 64 Fixtures.newestFirst ltac:(lia) Hvalid)
    as (Hexact & _ & _).
  split; [exact Hvalid|]. split; [rewrite Hexact; reflexivity | reflexivity].
Defined.

(** The offset of the example, run. *)
Example offset_runs : offset 64 Fixtures.newestFirst = 40.
Proof. vm_compute. reflexivity. Qed.

(** ** [data]: the movies table *)

Lemma MovieModel_Delete_present id ms stored :
  1 <= id -> ms !! id = Some stored ->
  MovieModel_Delete None id ms = (delete id ms, None).
Proof.
  intros Hid Hrow. unfold MovieModel_Delete. rewrite Hrow.
  destruct (id <? 1) eqn:Hlt; [apply Z.ltb_lt in Hlt; lia | reflexivity].
Qed.

Lemma MovieModel_Delete_absent id ms :
  ms !! id = None -> MovieModel_Delete None id ms = (ms, Some ErrRecordNotFound).
Proof.
  intros Hrow. unfold MovieModel_Delete. rewrite Hrow.
  destruct (id <? 1); [reflexivity|]. cbn. by rewrite delete_id.
Qed.

Lemma MovieModel_Delete_others fault id ms other :
  other <> id -> (MovieModel_Delete fault id ms).1 !! other = ms !! other.
Proof.
  intros Hne. unfold MovieModel_Delete.
  destruct (id <? 1); [reflexivity|]. destruct fault; [reflexivity|].
  destruct (ms !! id); cbn; by rewrite lookup_delete_ne.
Qed.

(** X6: deleting a stored movie succeeds and removes exactly that row:
    afterwards [Get] of the id reports that the record is not found, a
    second [Delete] reports the same, an [Update] of it reports an edit
    conflict, and every other row is as it was.  Deleting an id that is
    not stored reports not-found and changes nothing. *)
Theorem Delete_removes_exactly_the_row :
  forall (id : Z) (ms : gmap Z Movie),
    1 <= id ->
    (forall stored,
        ms !! id = Some stored ->
        let ms' := delete id ms in
        MovieModel_Delete None id ms = (ms', None)
        /\ MovieModel_Get None id ms' = Err ErrRecordNotFound
        /\ MovieModel_Delete None id ms' = (ms', Some ErrRecordNotFound)
        /\ (forall edit, MovieID edit = id ->
              MovieModel_Update None edit ms' = (ms', edit, Some ErrEditConflict))
        /\ (forall other, other <> id -> ms' !! other = ms !! other))
    /\ (ms !! id = None ->
          MovieModel_Delete None id ms = (ms, Some ErrRecordNotFound)).
Proof.
  intros id ms Hid. split.
  - intros stored Hrow ms'.
    assert (ms' !! id = None) as Hgone by apply lookup_delete_eq.
    split; [exact (MovieModel_Delete_present _ _ _ Hid Hrow)|].
    split; [exact (MovieModel_Get_absent _ _ Hgone)|].
    split; [exact (MovieModel_Delete_absent _ _ Hgone)|].
    split.
    + intros edit Hedit. apply MovieModel_Update_absent. rewrite Hedit. exact Hgone.
    + intros other Hne. by apply lookup_delete_ne.
  - apply MovieModel_Delete_absent.
Qed.

Lemma Delete_removes_exactly_the_row_witness :
  Fixtures.moviesV3 !! 1 = Some Fixtures.storedV3
  /\ MovieModel_Delete None 1 Fixtures.moviesV3 = (∅, None)
  /\ MovieModel_Get None 1 ∅ = Err ErrRecordNotFound
  /\ MovieModel_Delete None 1 ∅ = (∅, Some ErrRecordNotFound).
Proof.
  destruct (Delete_removes_exactly_the_row 1 Fixtures.moviesV3 ltac:(lia)) as [Hstored _].
  assert (Fixtures.moviesV3 !! 1 = Some Fixtures.storedV3) as Hrow
    by (vm_compute; reflexivity).
  destruct (Hstored _ Hrow) as (Hdel & Hget & Hagain & _).
  assert (delete 1 Fixtures.moviesV3 = (∅ : gmap Z Movie)) as Hempty
    by (vm_compute; reflexivity).
  rewrite Hempty in Hdel, Hget, Hagain.
  split; [exact Hrow|]. split; [exact Hdel|]. split; [exact Hget | exact Hagain].
Defined.

Lemma MovieModel_Update_stores fault movie ms ms' movie' :
  MovieModel_Update fault movie ms = (ms', movie', None) ->
  exists stored,
    ms !! MovieID movie = Some stored
    /\ MovieVersion stored = MovieVersion movie
    /\ ms' = <[MovieID movie :=
                {| MovieID := MovieID stored; MovieCreatedAt := MovieCreatedAt stored;
                   Title := Title movie; Year := Year movie; Runtime := Runtime movie;
                   Genres := Genres movie; MovieVersion := MovieVersion stored + 1 |}]> ms
    /\ movie' = {| MovieID := MovieID movie; MovieCreatedAt := MovieCreatedAt movie;
                   Title := Title movie; Year := Year movie; Runtime := Runtime movie;
                   Genres := Genres movie; MovieVersion := MovieVersion stored + 1 |}.
Proof.
  unfold MovieModel_Update, MovieModel_Update_query.
  destruct fault as [e|]; [intros [=]|].
  destruct (ms !! MovieID movie) as [stored|] eqn:Hrow; [|intros [=]].
  destruct (MovieVersion stored =? MovieVersion movie) eqn:Hv; [|intros [=]].
  intros [= <- <-]. apply Z.eqb_eq in Hv. exists stored. done.
Qed.

(** X7: what a successful [Update] stores is what [Get] then returns: the
    caller's title, year, runtime and genres, the version the caller got
    back, and the id and creation time of the stored row (not those of the
    caller's struct); the table has the same ids as before and every other
    row is unchanged. *)
Theorem Update_then_Get_round_trip :
  forall fault movie ms ms' movie',
    1 <= MovieID movie ->
    MovieModel_Update fault movie ms = (ms', movie', None) ->
    (exists stored row,
        ms !! MovieID movie = Some stored
        /\ MovieModel_Get None (MovieID movie) ms' = Ok row
        /\ Title row = Title movie /\ Year row = Year movie
        /\ Runtime row = Runtime movie /\ Genres row = Genres movie
        /\ MovieVersion row = MovieVersion movie'
        /\ MovieID row = MovieID stored
        /\ MovieCreatedAt row = MovieCreatedAt stored)
    /\ dom ms' = dom ms
    /\ (forall other, other <> MovieID movie -> ms' !! other = ms !! other).
Proof.
  intros fault movie ms ms' movie' Hid Hrun.
  destruct (MovieModel_Update_stores _ _ _ _ _ Hrun) as (stored & Hrow & Hv & -> & ->).
  split; [|split].
  - eexists stored, _. split; [exact Hrow|]. split.
    + apply MovieModel_Get_present; [exact Hid | apply lookup_insert_eq].
    + cbn. done.
  - rewrite dom_insert_L. apply (elem_of_dom_2 (D := gset Z)) in Hrow.
    apply subseteq_union_1_L, singleton_subseteq_l, Hrow.
  - intros other Hne. by apply lookup_insert_ne.
Qed.

Lemma Update_then_Get_round_trip_witness :
  MovieModel_Update None Fixtures.editV3 Fixtures.moviesV3
  = (Fixtures.moviesV4, Fixtures.editV4, None)
  /\ MovieModel_Get None 1 Fixtures.moviesV4 = Ok Fixtures.editV4
  /\ dom Fixtures.moviesV4 = dom Fixtures.moviesV3.
Proof.
  assert (MovieModel_Update None Fixtures.editV3 Fixtures.moviesV3
          = (Fixtures.moviesV4, Fixtures.editV4, None)) as Hrun
    by (vm_compute; reflexivity).
  destruct (Update_then_Get_round_trip None Fixtures.editV3 Fixtures.moviesV3
              Fixtures.moviesV4 Fixtures.editV4 ltac:(cbn; lia) Hrun)
    as (_ & Hdom & _).
  split; [exact Hrun|]. split; [vm_compute; reflexivity | exact Hdom].
Defined.

(** X8: of two writers that read the same version, only the first gets
    through: after a successful [Update], an [Update] of the same movie
    that still carries the version read before is refused with the edit
    conflict and leaves the first writer's row in place. *)
Theorem second_writer_gets_edit_conflict :
  forall first second ms ms' first',
    MovieModel_Update None first ms = (ms', first', None) ->
    MovieID second = MovieID first ->
    MovieVersion second = MovieVersion first ->
    MovieModel_Update None second ms' = (ms', second, Some ErrEditConflict)
    /\ MovieVersion first' = MovieVersion first + 1.
Proof.
  intros first second ms ms' first' Hrun Hid Hv.
  destruct (MovieModel_Update_stores _ _ _ _ _ Hrun) as (stored & Hrow & Hsv & -> & ->).
  split; [|cbn; lia].
  unfold MovieModel_Update, MovieModel_Update_query.
  rewrite Hid, lookup_insert_eq. cbn [MovieVersion].
  replace (MovieVersion stored + 1 =? MovieVersion second) with false
    by (symmetry; apply Z.eqb_neq; lia).
  reflexivity.
Qed.

Lemma second_writer_gets_edit_conflict_witness :
  MovieModel_Update None Fixtures.editV3 Fixtures.moviesV3
  = (Fixtures.moviesV4, Fixtures.editV4, None)
  /\ MovieModel_Update None Fixtures.storedV3 Fixtures.moviesV4
     = (Fixtures.moviesV4, Fixtures.storedV3, Some ErrEditConflict).
Proof.
  assert (MovieModel_Update None Fixtures.editV3 Fixtures.moviesV3
          = (Fixtures.moviesV4, Fixtures.editV4, None)) as Hrun
    by (vm_compute; reflexivity).
  split; [exact Hrun|].
  exact (proj1 (second_writer_gets_edit_conflict Fixtures.editV3 Fixtures.storedV3
                  _ _ _ Hrun eq_refl eq_refl)).
Defined.

(** ** [updateMovieHandler]: one response, and no half-done update *)

Lemma statuses_app tr1 tr2 : statuses (tr1 ++ tr2) = statuses tr1 ++ statuses tr2.
Proof.
  induction tr1 as [|e tr1 IH]; [reflexivity|].
  destruct e; cbn; rewrite ?IH; reflexivity.
Qed.

Lemma statuses_emit e w :
  statuses (trace (emit e w)) = statuses (trace w) ++ statuses [e].
Proof. cbn [emit trace]. apply statuses_app. Qed.

(** Closes a branch of a handler: the response written and the table. *)
Ltac handler_branch :=
  unfold notFoundResponse, badRequestResponse, failedValidationResponse,
    editConflictResponse, serverErrorResponse, errorResponse;
  cbn [movies emit setMovies trace];
  rewrite ?statuses_app; cbn [statuses]; rewrite ?app_nil_r;
  unfold http_StatusOK, http_StatusBadRequest, http_StatusNotFound,
    http_StatusConflict, http_StatusUnprocessableEntity,
    http_StatusInternalServerError.

Lemma updateMovieHandler_outcome app io r w :
  let w' := updateMovieHandler app io r w in
  exists status,
    statuses (trace w') = statuses (trace w) ++ [status]
    /\ (status <> 200 ->
        movies w' = movies w \/ movies w' = concurrent io (movies w))
    /\ (status = 200 ->
        exists id read stored row',
          readIDParam (parsedID io) = Ok id
          /\ movies w !! id = Some read
          /\ concurrent io (movies w) !! MovieID read = Some stored
          /\ MovieVersion stored = MovieVersion read
          /\ MovieVersion row' = MovieVersion read + 1
          /\ MovieID row' = MovieID stored
          /\ movies w' = <[MovieID read := row']> (concurrent io (movies w))).
Proof.
  cbv zeta. unfold updateMovieHandler.
  destruct (readIDParam (parsedID io)) as [id|e] eqn:Hid.
  2: { exists 404. handler_branch. split; [reflexivity|]. split; [by left | discriminate]. }
  cbn [movies emit].
  destruct (MovieModel_Get (getFault io) id (movies w)) as [read|err] eqn:Hget.
  2: { destruct (errors_Is err ErrRecordNotFound); [exists 404 | exists 500];
       handler_branch; (split; [reflexivity|]); (split; [by left | discriminate]). }
  assert (movies w !! id = Some read) as Hread.
  { revert Hget. unfold MovieModel_Get. destruct (id <? 1); [discriminate|].
    destruct (getFault io) as [e|].
    - destruct (errors_Is e sql_ErrNoRows); discriminate.
    - destruct (movies w !! id); [congruence | discriminate]. }
  destruct (decoded io) as [input|err] eqn:Hdec.
  2: { exists 400. handler_branch. split; [reflexivity|]. split; [by left | discriminate]. }
  cbv zeta.
  destruct (validator.Valid (ValidateMovie (nowYear io) validator.New
                               (applyInput input read))) eqn:Hvalid; cbn [negb].
  2: { exists 422. handler_branch. split; [reflexivity|]. split; [by left | discriminate]. }
  cbn [movies emit setMovies].
  destruct (MovieModel_Update (updateFault io) (applyInput input read)
              (concurrent io (movies w))) as [[ms updated] [err|]] eqn:Hupd.
  - assert (ms = concurrent io (movies w)) as ->.
    { revert Hupd. unfold MovieModel_Update, MovieModel_Update_query.
      destruct (updateFault io); [intros [= <-]; reflexivity|].
      destruct (concurrent io (movies w) !! MovieID (applyInput input read)) as [row|];
        [|intros [= <-]; reflexivity].
      destruct (MovieVersion row =? MovieVersion (applyInput input read));
        [discriminate | intros [= <-]; reflexivity]. }
    destruct (errors_Is err ErrEditConflict); [exists 409 | exists 500];
      handler_branch; (split; [reflexivity|]); (split; [by right | discriminate]).
  - exists 200. handler_branch. split; [reflexivity|]. split; [congruence|]. intros _.
    destruct (MovieModel_Update_stores _ _ _ _ _ Hupd) as (stored & Hrow & Hv & -> & _).
    cbn [applyInput MovieID MovieVersion] in *.
    eexists id, read, stored, _. split; [reflexivity|]. split; [exact Hread|].
    split; [exact Hrow|]. split; [exact Hv|]. split; [|split; [|reflexivity]].
    + cbn. lia.
    + reflexivity.
Qed.

(** X9: every run of [updateMovieHandler] writes exactly one response.
    Unless that response is the 200, the handler has changed nothing in
    the table (the table is as it was or as other writers left it); and
    the 200 means that the stored version was the one the handler had
    read and that exactly one row was replaced, by a row of the next
    version. *)
Theorem updateMovieHandler_responds_once :
  forall (app : application) (io : updateRun) (r : Request) (w : World),
    let w' := updateMovieHandler app io r w in
    exists status,
      statuses (trace w') = statuses (trace w) ++ [status]
      /\ (status <> 200 ->
          movies w' = movies w \/ movies w' = concurrent io (movies w))
      /\ (status = 200 ->
          exists id read stored row',
            readIDParam (parsedID io) = Ok id
            /\ movies w !! id = Some read
            /\ concurrent io (movies w) !! MovieID read = Some stored
            /\ MovieVersion stored = MovieVersion read
            /\ MovieVersion row' = MovieVersion read + 1
            /\ MovieID row' = MovieID stored
            /\ movies w' = <[MovieID read := row']> (concurrent io (movies w))).
Proof. exact updateMovieHandler_outcome. Qed.

Lemma countStatus_snoc status tr tr' st :
  statuses tr' = statuses tr ++ [st] ->
  countStatus status tr' = countStatus status tr + (if decide (st = status) then 1 else 0).
Proof.
  intros Hst. unfold countStatus.
  rewrite Hst, list.filter_app, length_app.
  rewrite list.filter_cons, list.filter_nil. case_decide; cbn; lia.
Qed.

(** One run without other writers: the version of the movie goes up by
    one with a 200 and stays with any other response. *)
Lemma updateMovieHandler_step app io r w id m0 :
  keyedByID (movies w) -> movies w !! id = Some m0 ->
  readIDParam (parsedID io) = Ok id -> (forall ms, concurrent io ms = ms) ->
  let w' := updateMovieHandler app io r w in
  keyedByID (movies w')
  /\ exists m',
       movies w' !! id = Some m'
       /\ MovieVersion m' - MovieVersion m0
          = countStatus 200 (trace w') - countStatus 200 (trace w).
Proof.
  intros Hkeyed Hrow Hid Hquiet. cbv zeta.
  destruct (updateMovieHandler_outcome app io r w) as (st & Hst & Hother & Hok).
  rewrite (countStatus_snoc 200 _ _ _ Hst).
  destruct (decide (st = 200)) as [->|Hne].
  - destruct (Hok eq_refl) as (id' & read & stored & row' & Hid' & Hread & Hstored
                               & Hv & Hv' & Hrowid & Hms).
    rewrite Hid in Hid'. injection Hid' as <-.
    rewrite Hrow in Hread. injection Hread as <-.
    rewrite Hquiet in Hstored, Hms.
    pose proof (Hkeyed _ _ Hrow) as Hkey. rewrite Hkey in Hstored, Hms.
    rewrite Hms. split.
    + intros k row Hk. destruct (decide (k = id)) as [->|Hk'].
      * rewrite lookup_insert_eq in Hk. injection Hk as <-.
        rewrite Hrowid. exact (Hkeyed _ _ Hstored).
      * rewrite lookup_insert_ne in Hk by congruence. exact (Hkeyed _ _ Hk).
    + exists row'. rewrite lookup_insert_eq. split; [reflexivity | lia].
  - assert (movies (updateMovieHandler app io r w) = movies w) as ->
      by (destruct (Hother Hne) as [H|H]; rewrite H; [|rewrite Hquiet]; reflexivity).
    split; [exact Hkeyed|]. exists m0. split; [exact Hrow | lia].
Qed.

(** X10: when requests to update one movie are handled one after the other
    and nobody else writes, the stored version ends as the version at the
    start plus the number of 200 responses: every successful update counts
    once, and a refused or failed one not at all. *)
Theorem successive_updates_add_up :
  forall (app : application) (r : Request) (ios : list updateRun) (w : World)
         (id : Z) (m0 : Movie),
    keyedByID (movies w) ->
    movies w !! id = Some m0 ->
    Forall (fun io => readIDParam (parsedID io) = Ok id
                      /\ forall ms, concurrent io ms = ms) ios ->
    let w' := serveEach (map (updateMovieHandler app) ios) r w in
    exists m',
      movies w' !! id = Some m'
      /\ MovieVersion m'
         = MovieVersion m0 + (countStatus 200 (trace w') - countStatus 200 (trace w)).
Proof.
  intros app r ios. induction ios as [|io ios IH]; intros w id m0 Hkeyed Hrow Hall; cbv zeta.
  - exists m0. cbn. split; [exact Hrow | lia].
  - inversion Hall as [|? ? [Hid Hquiet] Hrest]; subst. cbn [map serveEach].
    destruct (updateMovieHandler_step app io r w id m0 Hkeyed Hrow Hid Hquiet)
      as (Hkeyed' & m1 & Hrow1 & Hv1).
    destruct (IH _ id m1 Hkeyed' Hrow1 Hrest) as (m' & Hrow' & Hv').
    exists m'. split; [exact Hrow'|]. lia.
Qed.

Lemma keyedByID_moviesV3 : keyedByID Fixtures.moviesV3.
Proof.
  intros id row Hrow. unfold Fixtures.moviesV3 in Hrow.
  apply lookup_singleton_Some in Hrow as [<- <-]. reflexivity.
Qed.

Lemma successive_updates_add_up_witness :
  let w' := serveEach (map (updateMovieHandler Fixtures.app0)
                         [Fixtures.patchRuntime id; Fixtures.patchRuntime id])
              (Fixtures.request None) (Fixtures.worldWith Fixtures.moviesV3) in
  statuses (trace w') = [200; 200]
  /\ exists m', movies w' !! 1 = Some m' /\ MovieVersion m' = 3 + (2 - 0).
Proof.
  cbv zeta. split; [vm_compute; reflexivity|].
  destruct (successive_updates_add_up Fixtures.app0 (Fixtures.request None)
              [Fixtures.patchRuntime id; Fixtures.patchRuntime id]
              (Fixtures.worldWith Fixtures.moviesV3) 1 Fixtures.storedV3
              keyedByID_moviesV3 ltac:(vm_compute; reflexivity))
    as (m' & Hrow & Hv).
  - repeat constructor.
  - exists m'. split; [exact Hrow|]. rewrite Hv. reflexivity.
Defined.

(** ** [deleteMovieHandler] and [showMovieHandler] *)

(** X11: a delete request for a stored movie is answered 200 and removes
    the movie; the same request again, and a request to show the movie,
    are then answered 404, and the table stays as the delete left it.  A
    request whose id is not a positive integer is answered 404 without
    touching the table. *)
Theorem delete_then_requests_find_nothing :
  forall (app : application) (r : Request) (w : World) (parsed : result Z),
    (forall id stored,
        readIDParam parsed = Ok id ->
        movies w !! id = Some stored ->
        let w1 := deleteMovieHandler app parsed None r w in
        let w2 := deleteMovieHandler app parsed None r w1 in
        let w3 := showMovieHandler app parsed None r w2 in
        statuses (trace w3) = statuses (trace w) ++ [200; 404; 404]
        /\ movies w1 = delete id (movies w)
        /\ movies w3 = movies w1)
    /\ (forall e fault,
          readIDParam parsed = Err e ->
          deleteMovieHandler app parsed fault r w = notFoundResponse r w
          /\ showMovieHandler app parsed fault r w = notFoundResponse r w).
Proof.
  intros app r w parsed. split.
  - intros id stored Hid Hrow. cbv zeta.
    pose proof (readIDParam_Ok _ _ Hid) as Hpos.
    assert (deleteMovieHandler app parsed None r w
            = emit (EvWriteJSON http_StatusOK (Message "movie successfully deleted"))
                (setMovies (delete id (movies w)) w)) as ->.
    { unfold deleteMovieHandler.
      rewrite Hid, (MovieModel_Delete_present _ _ _ Hpos Hrow). reflexivity. }
    set (w1 := emit _ _).
    assert (movies w1 !! id = None) as Hgone by apply lookup_delete_eq.
    assert (deleteMovieHandler app parsed None r w1 = notFoundResponse r w1) as ->.
    { unfold deleteMovieHandler.
      rewrite Hid, (MovieModel_Delete_absent _ _ Hgone). cbn [errors_Is].
      destruct w1; reflexivity. }
    assert (showMovieHandler app parsed None r (notFoundResponse r w1)
            = notFoundResponse r (emit (EvMoviesGet id) (notFoundResponse r w1))) as ->.
    { unfold showMovieHandler. rewrite Hid. cbn [movies emit notFoundResponse errorResponse].
      rewrite (MovieModel_Get_absent _ _ Hgone). reflexivity. }
    subst w1. handler_branch. rewrite <- !app_assoc. done.
  - intros e fault Herr. unfold deleteMovieHandler, showMovieHandler.
    rewrite Herr. done.
Qed.

Lemma delete_then_requests_find_nothing_witness :
  let w := Fixtures.worldWith Fixtures.moviesV3 in
  let w1 := deleteMovieHandler Fixtures.app0 (Ok 1) None (Fixtures.request None) w in
  let w2 := deleteMovieHandler Fixtures.app0 (Ok 1) None (Fixtures.request None) w1 in
  let w3 := showMovieHandler Fixtures.app0 (Ok 1) None (Fixtures.request None) w2 in
  statuses (trace w3) = [200; 404; 404] /\ movies w3 = ∅.
Proof.
  cbv zeta.
  destruct (delete_then_requests_find_nothing Fixtures.app0 (Fixtures.request None)
              (Fixtures.worldWith Fixtures.moviesV3) (Ok 1)) as [Hstored _].
  destruct (Hstored 1 Fixtures.storedV3 eq_refl ltac:(vm_compute; reflexivity))
    as (Hst & Hdel & Hsame).
  split; [exact Hst|]. rewrite Hsame, Hdel. vm_compute. reflexivity.
Defined.

(** ** [authenticate]: when the credential lookup is contacted *)

Lemma strings_Split_nonempty s sep : strings_Split s sep <> [].
Proof.
  destruct s as [|c rest]; cbn; [discriminate|].
  destruct (Ascii.eqb c sep); [discriminate|].
  destruct (strings_Split rest sep); discriminate.
Qed.

Lemma strings_Split_one s sep b :
  strings_Split s sep = [b] -> s = b /\ without sep b = true.
Proof.
  revert b. induction s as [|c rest IH]; intros b; cbn.
  - intros [= <-]. done.
  - destruct (Ascii.eqb c sep) eqn:Hc.
    + intros [= _ Hrest]. by apply strings_Split_nonempty in Hrest.
    + destruct (strings_Split rest sep) as [|part parts] eqn:Hrest.
      * by apply strings_Split_nonempty in Hrest.
      * intros [= <- ->]. destruct (IH part eq_refl) as [-> Hw].
        cbn. rewrite Hc, Hw. done.
Qed.

Lemma strings_Split_two s sep a b :
  strings_Split s sep = [a; b] ->
  s = a +:+ String sep b /\ without sep a = true /\ without sep b = true.
Proof.
  revert a. induction s as [|c rest IH]; intros a; cbn; [discriminate|].
  destruct (Ascii.eqb c sep) eqn:Hc.
  - intros [= <- Hrest]. apply Ascii.eqb_eq in Hc as ->.
    destruct (strings_Split_one _ _ _ Hrest) as [-> Hw]. done.
  - destruct (strings_Split rest sep) as [|part parts] eqn:Hrest; [discriminate|].
    intros [= <- ->]. destruct (IH part eq_refl) as (-> & Hwa & Hwb).
    cbn. rewrite Hc, Hwa. done.
Qed.

(** X12: [authenticate] never contacts the credential lookup, and never
    lets a request through, on a header that is present but is not exactly
    [Bearer], one space, and 26 bytes without a space: every such header,
    whatever the scheme or the number of its parts, gets the
    invalid-authentication-token response with the [WWW-Authenticate]
    header and nothing else. *)
Theorem authenticate_rejects_every_other_header :
  forall (app : application) (next : HandlerFunc) (r : Request) (w : World),
    Header_Get r "Authorization" <> "" ->
    ~ (exists t, Header_Get r "Authorization" = "Bearer " +:+ t
                 /\ without " " t = true /\ len t = 26) ->
    authenticate app next r w
    = invalidAuthenticationTokenResponse r (emit (EvHeaderSet "Vary" "Authorization") w).
Proof.
  intros app next r w Hpresent Hshape. unfold authenticate.
  apply String.eqb_neq in Hpresent. rewrite Hpresent.
  destruct (strings_Split (Header_Get r "Authorization") " ")
    as [|scheme [|token [|third parts]]] eqn:Hparts; try reflexivity.
  cbn [length Nat.eqb negb orb nth].
  destruct (String.eqb scheme "Bearer") eqn:Hscheme; [|reflexivity].
  apply String.eqb_eq in Hscheme as ->. cbn [negb].
  rewrite ValidateTokenPlaintext_Valid.
  destruct (len token =? 26) eqn:Hlen; [|reflexivity].
  exfalso. apply Hshape. exists token.
  destruct (strings_Split_two _ _ _ _ Hparts) as (Hheader & _ & Hw).
  apply Z.eqb_eq in Hlen. done.
Qed.

Lemma authenticate_rejects_every_other_header_witness :
  trace (authenticate Fixtures.app0 (served "next")
           (Fixtures.request (Some ("Basic " +:+ Fixtures.token26))) Fixtures.world0)
  = [EvHeaderSet "Vary" "Authorization"; EvHeaderSet "WWW-Authenticate" "Bearer";
     EvWriteJSON http_StatusUnauthorized
       (Message "invalid or missing authentication token")]
  /\ trace (authenticate Fixtures.app0 (served "next")
              (Fixtures.request (Some ("Bearer " +:+ Fixtures.token26 +:+ " x")))
              Fixtures.world0)
     = [EvHeaderSet "Vary" "Authorization"; EvHeaderSet "WWW-Authenticate" "Bearer";
        EvWriteJSON http_StatusUnauthorized
          (Message "invalid or missing authentication token")].
Proof.
  split.
  - rewrite authenticate_rejects_every_other_header; [reflexivity | discriminate |].
    intros (t & Hheader & _). vm_compute in Hheader. discriminate Hheader.
  - rewrite authenticate_rejects_every_other_header; [reflexivity | discriminate |].
    intros (t & Hheader & Hw & _).
    change (Header_Get _ _) with ("Bearer " +:+ (Fixtures.token26 +:+ " x")) in Hheader.
    unfold String.append in Hheader; fold String.append in Hheader.
    injection Hheader as <-. vm_compute in Hw. discriminate Hw.
Defined.

(** ** The chain from the header to the handler *)

Lemma Include_iff permissions code :
  Include permissions code = true <-> code ∈ permissions.
Proof.
  induction permissions as [|c rest IH]; cbn.
  - split; [discriminate | intros H; inversion H].
  - destruct (String.eqb code c) eqn:Heq.
    + apply String.eqb_eq in Heq as ->. split; [intros _; left | reflexivity].
    + apply String.eqb_neq in Heq. rewrite IH. split; [by right|].
      intros H. inversion H; subst; [congruence | assumption].
Qed.

(** X13: a request with a well-formed token that the lookup resolves to a
    user goes through [authenticate] and then [requirePermission] as that
    user, never as the anonymous one, even when all the user's fields are
    zero: it is answered 403 (inactive account) when the user is not
    activated, 500 when the permission lookup fails, 403 (not permitted)
    when the permission set does not contain the code, and reaches the
    wrapped handler exactly when the user is activated and the code is a
    member of the set.  The handler then finds the user in the request's
    context. *)
Theorem token_holder_passes_the_chain :
  forall (app : application) (code : string) (next : HandlerFunc)
         (r : Request) (w : World) (t : string) (found : User),
    Header_Get r "Authorization" = "Bearer " +:+ t ->
    without " " t = true ->
    len t = 26 ->
    Users_GetForToken (models app) ScopeAuthentication t = Ok found ->
    heap w <> [] ->
    let user := length (heap w) in
    let r' := contextSetUser r user in
    let w' := setHeap (heap w ++ [found])
                (emit (EvGetForToken ScopeAuthentication t)
                   (emit (EvHeaderSet "Vary" "Authorization") w)) in
    contextGetUser r' = Some user
    /\ heap w' !! user = Some found
    /\ IsAnonymous user = false
    /\ authenticate app (requirePermission app code next) r w
       = if negb (Activated found) then inactiveAccountResponse r' w'
         else
           let w'' := emit (EvGetAllForUser (ID found)) w' in
           match Permissions_GetAllForUser (models app) (ID found) with
           | Err err => serverErrorResponse err r' w''
           | Ok permissions =>
               if bool_decide (code ∈ permissions) then next r' w''
               else notPermittedResponse r' w''
           end.
Proof.
  intros app code next r w t found Hheader Hw Hlen Hfound Hheap. cbv zeta.
  assert ((heap w ++ [found]) !! length (heap w) = Some found) as Hcell
    by (by apply list_lookup_middle).
  assert (IsAnonymous (length (heap w)) = false) as Hnotanon.
  { unfold IsAnonymous, AnonymousUser. apply Nat.eqb_neq.
    destruct (heap w); [congruence | discriminate]. }
  split; [reflexivity|]. split; [exact Hcell|]. split; [exact Hnotanon|].
  rewrite (authenticate_Bearer app _ r w t Hheader Hw). cbv zeta.
  apply Z.eqb_eq in Hlen. rewrite Hlen, Hfound.
  unfold requirePermission, requireActivatedUser, requireAuthenticatedUser.
  cbn [contextGetUser contextSetUser ctxUser heap setHeap emit].
  rewrite Hnotanon.
  repeat match goal with
         | |- context [@lookup ?K ?A ?M ?I ?i ?l] =>
             replace (@lookup K A M I i l) with (Some found) by (symmetry; exact Hcell)
         end.
  destruct (Activated found); cbn [negb]; [|reflexivity].
  destruct (Permissions_GetAllForUser (models app) (ID found)) as [permissions|err];
    [|reflexivity].
  destruct (Include permissions code) eqn:Hinc; cbn [negb].
  - apply Include_iff in Hinc. by rewrite bool_decide_eq_true_2.
  - rewrite bool_decide_eq_false_2; [reflexivity|].
    intros Hin. apply Include_iff in Hin. congruence.
Qed.

Lemma token_holder_passes_the_chain_witness :
  let r := Fixtures.request (Some ("Bearer " +:+ Fixtures.token26)) in
  trace (authenticate Fixtures.aliceApp
           (requirePermission Fixtures.aliceApp "movies:read" (served "listMovies"))
           r Fixtures.world0)
  = [EvHeaderSet "Vary" "Authorization";
     EvGetForToken ScopeAuthentication Fixtures.token26;
     EvGetAllForUser 7; EvServed "listMovies"]
  /\ statuses (trace (authenticate Fixtures.aliceApp
                        (requirePermission Fixtures.aliceApp "movies:write"
                           (served "createMovie"))
                        r Fixtures.world0))
     = [403].
Proof.
  cbv zeta. split.
  - destruct (token_holder_passes_the_chain Fixtures.aliceApp "movies:read"
                (served "listMovies")
                (Fixtures.request (Some ("Bearer " +:+ Fixtures.token26)))
                Fixtures.world0 Fixtures.token26 Fixtures.aliceActive
                eq_refl eq_refl eq_refl eq_refl ltac:(discriminate))
      as (_ & _ & _ & Hrun).
    rewrite Hrun. vm_compute. reflexivity.
  - destruct (token_holder_passes_the_chain Fixtures.aliceApp "movies:write"
                (served "createMovie")
                (Fixtures.request (Some ("Bearer " +:+ Fixtures.token26)))
                Fixtures.world0 Fixtures.token26 Fixtures.aliceActive
                eq_refl eq_refl eq_refl eq_refl ltac:(discriminate))
      as (_ & _ & _ & Hrun).
    rewrite Hrun. vm_compute. reflexivity.
Defined.

(** ** [generateToken]: the tokens the server issues *)

Lemma base32_encode_inAlphabet group :
  inAlphabet (base32.encode group) base32Alphabet = true.
Proof.
  unfold base32.encode.
  assert (Hrange : 0 <= Z.land group 31 < 32).
  { change 31 with (Z.ones 5). rewrite Z.land_ones by lia.
    apply Z.mod_pos_bound. lia. }
  destruct (Z.land group 31) as [|p|p]; [reflexivity| |lia].
  do 5 (destruct p as [p|p|]; try lia; try reflexivity).
Qed.

(** Sixteen bytes are written as 26 characters of the alphabet. *)
Lemma EncodeToString_16 (randomBytes : list Z) :
  length randomBytes = 16%nat ->
  len (base32.EncodeToString randomBytes) = 26
  /\ allInAlphabet (base32.EncodeToString randomBytes) base32Alphabet = true.
Proof.
  intros Hlen.
  do 16 (destruct randomBytes as [|? randomBytes]; [discriminate Hlen|]).
  destruct randomBytes; [|discriminate Hlen].
  split; [reflexivity|].
  cbn [base32.EncodeToString allInAlphabet].
  rewrite !base32_encode_inAlphabet. reflexivity.
Qed.

Lemma allInAlphabet_without_space s :
  allInAlphabet s base32Alphabet = true -> without " " s = true.
Proof.
  induction s as [|c s IH]; cbn [allInAlphabet without]; [reflexivity|].
  intros Hall. apply andb_prop in Hall as [Hc Hs]. rewrite (IH Hs), andb_true_r.
  destruct (Ascii.eqb c " ") eqn:Hspace; [|reflexivity].
  apply Ascii.eqb_eq in Hspace as ->. discriminate Hc.
Qed.

(** X14: a token that [generateToken] makes is well formed wherever the
    code checks one.  Whatever the 16 random bytes are, the plaintext is
    26 characters of the base32 alphabet, so it passes
    [ValidateTokenPlaintext]; the token carries the hash of the plaintext,
    the user, the scope and the clock plus the time-to-live; and
    [authenticate], given the plaintext as a bearer token, does not
    reject it as malformed but asks the credential lookup about it. *)
Theorem issued_token_reaches_the_lookup
    (randomBytes : list Z) (sha256 : string -> string)
    (clock userID ttl : Z) (scope : string)
    (app : application) (next : HandlerFunc) (r : Request) (w : World) :
  length randomBytes = 16%nat ->
  Header_Get r "Authorization" = "Bearer " +:+ base32.EncodeToString randomBytes ->
  exists token,
    generateToken (Ok randomBytes) sha256 clock userID ttl scope = Ok token
    /\ validator.Valid (ValidateTokenPlaintext validator.New (Plaintext token)) = true
    /\ Spec.tokenShape (Plaintext token) = true
    /\ Hash token = sha256 (Plaintext token)
    /\ UserID token = userID /\ Scope token = scope /\ Expiry token = clock + ttl
    /\ authenticate app next r w
       = let w := emit (EvGetForToken ScopeAuthentication (Plaintext token))
                    (emit (EvHeaderSet "Vary" "Authorization") w) in
         match Users_GetForToken (models app) ScopeAuthentication (Plaintext token) with
         | Err err =>
             if errors_Is err ErrRecordNotFound
             then invalidAuthenticationTokenResponse r w
             else serverErrorResponse err r w
         | Ok found =>
             next (contextSetUser r (length (heap w))) (setHeap (heap w ++ [found]) w)
         end.
Proof.
  intros Hlen Hheader. destruct (EncodeToString_16 _ Hlen) as [H26 Halpha].
  eexists. split; [reflexivity|]. cbn [Plaintext Hash UserID Scope Expiry].
  rewrite ValidateTokenPlaintext_Valid. unfold Spec.tokenShape. rewrite H26, Halpha.
  repeat (split; [reflexivity|]).
  rewrite (authenticate_Bearer app next r w _ Hheader
             (allInAlphabet_without_space _ Halpha)).
  cbv zeta. rewrite H26. reflexivity.
Qed.

Lemma issued_token_reaches_the_lookup_witness :
  let randomBytes := [222; 173; 190; 239; 0; 1; 2; 3; 4; 5; 6; 7; 8; 9; 10; 255] in
  let plaintext := "32W353YAAEBAGBAFAYDQQCIK74" in
  let r := Fixtures.request (Some ("Bearer " +:+ plaintext)) in
  base32.EncodeToString randomBytes = plaintext
  /\ exists token,
       generateToken (Ok randomBytes) (fun s => s) 1000 7 86400 ScopeAuthentication
       = Ok token
       /\ Plaintext token = plaintext
       /\ trace (authenticate Fixtures.app0 (served "next") r Fixtures.world0)
          = [EvHeaderSet "Vary" "Authorization";
             EvGetForToken ScopeAuthentication plaintext;
             EvHeaderSet "WWW-Authenticate" "Bearer";
             EvWriteJSON http_StatusUnauthorized
               (Message "invalid or missing authentication token")].
Proof.
  intros randomBytes plaintext r. split; [reflexivity|].
  destruct (issued_token_reaches_the_lookup randomBytes (fun s => s) 1000 7 86400
              ScopeAuthentication Fixtures.app0 (served "next") r Fixtures.world0
              eq_refl eq_refl)
    as (token & Hgen & _ & _ & _ & _ & _ & _ & Hauth).
  exists token. split; [exact Hgen|]. injection Hgen as <-.
  split; [reflexivity|]. rewrite Hauth. reflexivity.
Defined.

(** ** [strconv]: printing and parsing decimal integers *)

Lemma digit_cases (P : Z -> Prop) :
  P 0 -> P 1 -> P 2 -> P 3 -> P 4 -> P 5 -> P 6 -> P 7 -> P 8 -> P 9 ->
  forall d, 0 <= d < 10 -> P d.
Proof.
  intros H0 H1 H2 H3 H4 H5 H6 H7 H8 H9 d Hd.
  assert (Hcases : d = 0 \/ d = 1 \/ d = 2 \/ d = 3 \/ d = 4 \/ d = 5
                   \/ d = 6 \/ d = 7 \/ d = 8 \/ d = 9) by lia.
  repeat (destruct Hcases as [->|Hcases]; [assumption|]). by subst.
Qed.

Lemma digitValue_digitChar d :
  0 <= d < 10 -> strconv.digitValue (strconv.digitChar d) = Some d.
Proof. revert d. apply digit_cases; reflexivity. Qed.

Lemma formatDigits_bytes (P : ascii -> Prop) :
  (forall d, 0 <= d < 10 -> P (strconv.digitChar d)) ->
  forall fuel n acc, 0 <= n -> Forall P (list_ascii_of_string acc) ->
    Forall P (list_ascii_of_string (strconv.formatDigits fuel n acc)).
Proof.
  intros Hdigit. induction fuel as [|fuel IH]; intros n acc Hn Hacc; cbn; [exact Hacc|].
  assert (Hcons : Forall P (list_ascii_of_string
                              (String (strconv.digitChar (n mod 10)) acc))).
  { cbn. constructor; [|exact Hacc]. apply Hdigit, Z.mod_pos_bound. lia. }
  destruct (n <? 10); [exact Hcons|].
  apply IH; [|exact Hcons]. apply Z.div_pos; lia.
Qed.

Lemma formatDigits_nonempty fuel n acc :
  acc <> EmptyString -> strconv.formatDigits fuel n acc <> EmptyString.
Proof.
  revert n acc. induction fuel as [|fuel IH]; intros n acc Hacc; cbn; [exact Hacc|].
  destruct (n <? 10); [discriminate|]. apply IH. discriminate.
Qed.

(** Parsing the digits that [formatDigits] wrote continues from the
    number they stand for. *)
Lemma parseDigits_formatDigits fuel :
  forall n rest, 0 <= n < 2 ^ Z.of_nat fuel ->
    exists k, 0 <= k /\ forall acc,
      strconv.parseDigits (strconv.formatDigits fuel n rest) acc
      = strconv.parseDigits rest (acc * 10 ^ k + n).
Proof.
  induction fuel as [|fuel IH]; intros n rest Hn.
  - exists 0. split; [lia|]. intros acc. cbn. f_equal. cbn in Hn. lia.
  - cbn [strconv.formatDigits].
    assert (Hd : 0 <= n mod 10 < 10) by (apply Z.mod_pos_bound; lia).
    destruct (n <? 10) eqn:Hsmall.
    + exists 1. split; [lia|]. intros acc. cbn [strconv.parseDigits].
      rewrite (digitValue_digitChar _ Hd). f_equal.
      apply Z.ltb_lt in Hsmall. rewrite Z.mod_small by lia. lia.
    + apply Z.ltb_ge in Hsmall.
      destruct (IH (n / 10) (String (strconv.digitChar (n mod 10)) rest))
        as (k & Hk & Hparse).
      { split; [apply Z.div_pos; lia|].
        apply Z.div_lt_upper_bound; [lia|].
        rewrite Nat2Z.inj_succ, Z.pow_succ_r in Hn by lia. lia. }
      exists (k + 1). split; [lia|]. intros acc. rewrite Hparse.
      cbn [strconv.parseDigits]. rewrite (digitValue_digitChar _ Hd). f_equal.
      rewrite Z.pow_add_r, Z.pow_1_r by lia.
      pose proof (Z.div_mod n 10 ltac:(lia)). lia.
Qed.

Lemma parseDigits_nonneg s :
  forall acc n, 0 <= acc -> strconv.parseDigits s acc = Some n -> 0 <= n.
Proof.
  induction s as [|c rest IH]; intros acc n Hacc; cbn.
  - intros [= <-]. exact Hacc.
  - unfold strconv.digitValue.
    destruct (_ && _) eqn:Hdigit; [|discriminate].
    apply andb_prop in Hdigit as [Hlo _]. apply Z.leb_le in Hlo.
    apply IH. lia.
Qed.

Lemma formatDigits_head fuel :
  forall n acc, 0 <= n ->
    (exists d rest, 0 <= d < 10 /\ acc = String (strconv.digitChar d) rest) ->
    exists d rest, 0 <= d < 10
      /\ strconv.formatDigits fuel n acc = String (strconv.digitChar d) rest.
Proof.
  induction fuel as [|fuel IH]; intros n acc Hn Hacc; cbn; [exact Hacc|].
  destruct (n <? 10).
  - exists (n mod 10), acc. split; [apply Z.mod_pos_bound; lia|reflexivity].
  - apply IH; [apply Z.div_pos; lia|].
    exists (n mod 10), acc. split; [apply Z.mod_pos_bound; lia|reflexivity].
Qed.

(** [FormatInt] of a negative number is the sign and the digits of its
    opposite. *)
Lemma FormatInt_negative i :
  i < 0 -> strconv.FormatInt i = String "-" (strconv.FormatInt (- i)).
Proof.
  intros Hi. unfold strconv.FormatInt.
  rewrite Z.abs_opp.
  destruct (Z.ltb_spec i 0); [|lia]. destruct (Z.ltb_spec (- i) 0); [lia|].
  reflexivity.
Qed.

(** [FormatInt] of a number that is not negative: a digit first, and
    digits that parse to the number. *)
Lemma FormatInt_nonnegative u :
  0 <= u ->
  (exists d rest, 0 <= d < 10 /\ strconv.FormatInt u = String (strconv.digitChar d) rest)
  /\ strconv.parseDigits (strconv.FormatInt u) 0 = Some u.
Proof.
  intros Hu. unfold strconv.FormatInt.
  destruct (Z.ltb_spec u 0); [lia|]. rewrite Z.abs_eq by lia. split.
  - cbn [strconv.formatDigits]. destruct (u <? 10).
    + exists (u mod 10), EmptyString. split; [apply Z.mod_pos_bound; lia|reflexivity].
    + apply formatDigits_head; [apply Z.div_pos; lia|].
      exists (u mod 10), EmptyString. split; [apply Z.mod_pos_bound; lia|reflexivity].
  - destruct (parseDigits_formatDigits (S (Z.to_nat (Z.log2 u))) u EmptyString)
      as (k & _ & Hparse).
    { split; [exact Hu|]. rewrite Nat2Z.inj_succ, Z2Nat.id by apply Z.log2_nonneg.
      destruct (Z.eq_dec u 0) as [->|Hne]; [reflexivity|].
      apply Z.log2_spec. lia. }
    rewrite Hparse. cbn. f_equal.
Qed.

Lemma FormatInt_bytes (P : ascii -> Prop) i :
  (forall d, 0 <= d < 10 -> P (strconv.digitChar d)) -> P "-"%char ->
  Forall P (list_ascii_of_string (strconv.FormatInt i)).
Proof.
  intros Hdigit Hsign. unfold strconv.FormatInt.
  pose proof (formatDigits_bytes P Hdigit (S (Z.to_nat (Z.log2 (Z.abs i)))) (Z.abs i)
                EmptyString (Z.abs_nonneg i) (Forall_nil P)) as Hall.
  destruct (i <? 0); [|exact Hall]. cbn. constructor; assumption.
Qed.

(** [ParseInt] reads back what [FormatInt] wrote, for a number of the
    [bitSize]-bit range. *)
Lemma ParseInt_FormatInt i bitSize :
  - 2 ^ (bitSize - 1) <= i < 2 ^ (bitSize - 1) ->
  strconv.ParseInt (strconv.FormatInt i) bitSize = Ok i.
Proof.
  intros Hrange. destruct (Z.ltb_spec i 0) as [Hneg|Hpos].
  - rewrite (FormatInt_negative i Hneg).
    destruct (FormatInt_nonnegative (- i) ltac:(lia)) as [(d & rest & Hd & Hhead) Hparse].
    unfold strconv.ParseInt. cbv zeta.
    change (Ascii.eqb "-" "+") with false. change (Ascii.eqb "-" "-") with true.
    cbn [orb negb andb]. rewrite Hparse, Hhead.
    destruct (Z.ltb_spec (2 ^ (bitSize - 1)) (- i)); [lia|].
    f_equal. lia.
  - destruct (FormatInt_nonnegative i Hpos) as [(d & rest & Hd & Hhead) Hparse].
    assert (Hsign : Ascii.eqb (strconv.digitChar d) "+" = false
                    /\ Ascii.eqb (strconv.digitChar d) "-" = false).
    { clear Hhead. revert d Hd. apply digit_cases; split; reflexivity. }
    rewrite Hhead in Hparse |- *. unfold strconv.ParseInt. cbv zeta.
    destruct Hsign as [-> ->]. cbn [orb negb andb]. rewrite Hparse.
    destruct (Z.leb_spec (2 ^ (bitSize - 1)) i); [lia|]. reflexivity.
Qed.

(** What [ParseInt] accepts is of the [bitSize]-bit range. *)
Lemma ParseInt_range s bitSize i :
  0 < bitSize ->
  strconv.ParseInt s bitSize = Ok i ->
  - 2 ^ (bitSize - 1) <= i < 2 ^ (bitSize - 1).
Proof.
  intros Hbits. assert (0 < 2 ^ (bitSize - 1)) by (apply Z.pow_pos_nonneg; lia).
  unfold strconv.ParseInt. destruct s as [|c rest]; [discriminate|]. cbv zeta.
  destruct (if Ascii.eqb c "+" || Ascii.eqb c "-" then rest else String c rest)
    as [|c' rest']; [discriminate|].
  destruct (strconv.parseDigits _ 0) as [un|] eqn:Hparse; [|discriminate].
  apply parseDigits_nonneg in Hparse; [|lia].
  destruct (Ascii.eqb c "-"); cbn [negb andb].
  - destruct (Z.ltb_spec (2 ^ (bitSize - 1)) un); [discriminate|].
    intros [= <-]. lia.
  - destruct (Z.leb_spec (2 ^ (bitSize - 1)) un); [discriminate|].
    intros [= <-]. lia.
Qed.

(** ** [strconv]: quoting *)

Lemma splitLast_append s c :
  strconv.splitLast (s +:+ String c EmptyString) = Some (s, c).
Proof.
  induction s as [|a s IH]; [reflexivity|].
  unfold String.append; fold String.append. cbn [strconv.splitLast].
  rewrite IH. destruct s; reflexivity.
Qed.

Lemma Unquote_Quote s quoted :
  strconv.Quote s = Some quoted -> strconv.Unquote quoted = Some (Ok s).
Proof.
  unfold strconv.Quote. destruct (strconv.plain s) eqn:Hplain; [|discriminate].
  intros [= <-]. unfold strconv.Unquote. rewrite splitLast_append.
  rewrite Ascii.eqb_refl. cbn [negb]. rewrite Hplain. reflexivity.
Qed.

Lemma plain_bytes s :
  Forall (fun c => strconv.plainByte c = true) (list_ascii_of_string s) -> strconv.plain s = true.
Proof.
  induction s as [|c s IH]; cbn; [reflexivity|].
  intros Hall. inversion Hall as [|? ? Hc Hs]; subst. rewrite Hc. exact (IH Hs).
Qed.

Lemma plain_append s t :
  strconv.plain (s +:+ t) = strconv.plain s && strconv.plain t.
Proof.
  induction s as [|c s IH]; [reflexivity|].
  unfold String.append; fold String.append. cbn [strconv.plain].
  rewrite IH. apply andb_assoc.
Qed.

Lemma without_bytes sep s :
  Forall (fun c => Ascii.eqb c sep = false) (list_ascii_of_string s) -> without sep s = true.
Proof.
  induction s as [|c s IH]; cbn; [reflexivity|].
  intros Hall. inversion Hall as [|? ? Hc Hs]; subst. rewrite Hc. exact (IH Hs).
Qed.

Lemma strings_Split_append s t sep :
  without sep s = true ->
  strings_Split (s +:+ String sep t) sep = s :: strings_Split t sep.
Proof.
  induction s as [|c s IH]; intros Hs.
  - change (strings_Split (String sep t) sep = [EmptyString] ++ strings_Split t sep).
    cbn [strings_Split]. rewrite Ascii.eqb_refl. reflexivity.
  - cbn [without] in Hs. apply andb_prop in Hs as [Hc Hs]. apply negb_true_iff in Hc.
    unfold String.append; fold String.append. cbn [strings_Split].
    rewrite Hc, (IH Hs). reflexivity.
Qed.

(** ** [Runtime]: the JSON form of a running time *)

(** What [Runtime.MarshalJSON] writes: the number, a space and [mins]
    between double quotes. *)
Lemma Runtime_MarshalJSON_writes r :
  Runtime_MarshalJSON r
  = Some (String strconv.quoteByte
            ((strconv.FormatInt r +:+ " mins") +:+ String strconv.quoteByte EmptyString)).
Proof.
  unfold Runtime_MarshalJSON, strconv.Quote.
  rewrite plain_append, plain_bytes; [reflexivity|].
  apply FormatInt_bytes; [|reflexivity].
  apply digit_cases; reflexivity.
Qed.

Lemma Runtime_round_trip r jsonValue :
  - 2 ^ 31 <= r < 2 ^ 31 ->
  Runtime_MarshalJSON r = Some jsonValue ->
  Runtime_UnmarshalJSON jsonValue = Some (Ok r).
Proof.
  intros Hrange Hmarshal. unfold Runtime_UnmarshalJSON.
  unfold Runtime_MarshalJSON in Hmarshal.
  rewrite (Unquote_Quote _ _ Hmarshal).
  change (strconv.FormatInt r +:+ " mins")
    with (strconv.FormatInt r +:+ String " " "mins").
  rewrite strings_Split_append.
  - cbn [strings_Split length Nat.eqb negb orb nth]. cbn -[strconv.ParseInt].
    rewrite ParseInt_FormatInt by exact Hrange. reflexivity.
  - apply without_bytes, FormatInt_bytes; [|reflexivity].
    apply digit_cases; reflexivity.
Qed.

(** X15: a running time survives the JSON encoding.  For every value of
    the [int32] range, [MarshalJSON] writes a JSON string and
    [UnmarshalJSON] reads that string back to the same value, without
    error. *)
Theorem Runtime_JSON_round_trip (r : Z) :
  - 2 ^ 31 <= r < 2 ^ 31 ->
  exists jsonValue,
    Runtime_MarshalJSON r = Some jsonValue
    /\ Runtime_UnmarshalJSON jsonValue = Some (Ok r).
Proof.
  intros Hrange. eexists. split; [apply Runtime_MarshalJSON_writes|].
  eapply Runtime_round_trip; [exact Hrange|apply Runtime_MarshalJSON_writes].
Qed.

Lemma Runtime_JSON_round_trip_witness :
  exists jsonValue,
    Runtime_MarshalJSON 107 = Some jsonValue
    /\ Runtime_UnmarshalJSON jsonValue = Some (Ok 107).
Proof. apply Runtime_JSON_round_trip. lia. Defined.





(** ** [rateLimit]: the registry *)

(** What [rateLimit] does to the registry before it decides. *)
Lemma rateLimit_registry app next r w :
  enabled (limiter (cfg app)) = true ->
  exists (allowed : bool) (lim : rate.Limiter) (cs : gmap string client),
    rateLimit app next r w
    = (if allowed then next r (setClients cs w)
       else rateLimitExceededResponse r (setClients cs w))
    /\ cs !! RemoteIP r = Some {| limiter_ := lim; lastSeen := now w |}
    /\ (forall ip, ip <> RemoteIP r -> cs !! ip = clients w !! ip).
Proof.
  intros Hon. unfold rateLimit. rewrite Hon. cbv zeta.
  set (ip := RemoteIP r).
  set (fresh := {| limiter_ := rate.NewLimiter _ _; lastSeen := 0 |}).
  set (cs0 := match clients w !! ip with
              | Some _ => clients w
              | None => <[ip := fresh]> (clients w)
              end).
  assert (Hin : exists c, cs0 !! ip = Some c).
  { subst cs0. destruct (clients w !! ip) as [c|] eqn:Hc; [eauto|].
    exists fresh. apply lookup_insert_eq. }
  assert (Hothers : forall id, id <> ip -> cs0 !! id = clients w !! id).
  { intros id Hid. subst cs0. destruct (clients w !! ip); [reflexivity|].
    by rewrite lookup_insert_ne. }
  destruct Hin as [c Hc].
  rewrite lookup_alter_eq, Hc. cbn [fmap option_fmap option_map limiter_ lastSeen].
  destruct (rate.Allow (now w) (limiter_ c)) as [allowed lim].
  exists allowed, lim. eexists. split; [destruct allowed; reflexivity|]. split.
  - apply lookup_insert_eq.
  - intros id Hid. rewrite lookup_insert_ne, lookup_alter_ne by done. by apply Hothers.
Qed.

(** X17: with the limiter enabled, [rateLimit] touches the registry
    entry of the caller and no other.  Whether the request is let through
    or answered 429, the handler or the response runs on a world whose
    clock, heap, movies and trace are as before, where the caller has an
    entry last seen at this request's clock reading and every other
    identity's entry is what it was; the nil-dereference branch is never
    taken.  A sweep that ticks no more than three minutes after the
    request keeps the caller's entry. *)
Theorem rateLimit_refreshes_only_the_caller
    (app : application) (next : HandlerFunc) (r : Request) (w : World) :
  enabled (limiter (cfg app)) = true ->
  exists (allowed : bool) (w' : World),
    rateLimit app next r w
    = (if allowed then next r w' else rateLimitExceededResponse r w')
    /\ now w' = now w /\ heap w' = heap w /\ movies w' = movies w
    /\ trace w' = trace w
    /\ (exists c, clients w' !! RemoteIP r = Some c /\ lastSeen c = now w)
    /\ (forall ip, ip <> RemoteIP r -> clients w' !! ip = clients w !! ip)
    /\ (forall tick, time_Since tick (now w) <= 3 * time_Minute ->
          sweep tick (clients w') !! RemoteIP r = clients w' !! RemoteIP r).
Proof.
  intros Hon.
  destruct (rateLimit_registry app next r w Hon) as (allowed & lim & cs & Hrun & Hip & Hothers).
  exists allowed, (setClients cs w). split; [exact Hrun|].
  cbn [now heap movies trace clients setClients]. repeat (split; [reflexivity|]).
  split; [eauto|]. split; [exact Hothers|].
  intros tick Hfresh. rewrite Hip. unfold sweep.
  apply map_lookup_filter_Some. split; [exact Hip|]. cbn [snd lastSeen]. lia.
Qed.

Lemma rateLimit_refreshes_only_the_caller_witness :
  let w := Fixtures.worldOfClients Fixtures.twoClients in
  let r := Fixtures.request None in
  exists (allowed : bool) (w' : World),
    rateLimit Fixtures.app0 (served "next") r w
    = (if allowed then served "next" r w' else rateLimitExceededResponse r w')
    /\ now w' = now w /\ heap w' = heap w /\ movies w' = movies w
    /\ trace w' = trace w
    /\ (exists c, clients w' !! RemoteIP r = Some c /\ lastSeen c = now w)
    /\ (forall ip, ip <> RemoteIP r -> clients w' !! ip = clients w !! ip)
    /\ (forall tick, time_Since tick (now w) <= 3 * time_Minute ->
          sweep tick (clients w') !! RemoteIP r = clients w' !! RemoteIP r).
Proof.
  intros w r.
  exact (rateLimit_refreshes_only_the_caller Fixtures.app0 (served "next") r w eq_refl).
Defined.

(** ** [enableCORS] *)

(** The loop of [enableCORS] over the trusted origins is a membership
    test. *)
Lemma enableCORS_decides trustedOrigins next r w :
  cors.enableCORS trustedOrigins next r w
  = let origin := cors.Header_Get (cors.Header r) "Origin" in
    if negb (String.eqb origin "") && bool_decide (origin ∈ trustedOrigins) then
      let w := cors.setHeader "Access-Control-Allow-Origin" origin (cors.varied w) in
      if cors.preflight r then
        cors.WriteHeader http_StatusOK
          (cors.setHeader "Access-Control-Allow-Headers" "Authorization, Content-Type"
             (cors.setHeader "Access-Control-Allow-Methods" "OPTIONS, PUT, PATCH, DELETE" w))
      else next r w
    else next r (cors.varied w).
Proof.
  unfold cors.enableCORS, cors.varied, cors.preflight. cbv zeta.
  set (origin := cors.Header_Get (cors.Header r) "Origin").
  destruct (String.eqb origin ""); cbn [negb andb]; [reflexivity|].
  induction trustedOrigins as [|t rest IH].
  - reflexivity.
  - destruct (String.eqb origin t) eqn:Ht.
    + apply String.eqb_eq in Ht. rewrite bool_decide_eq_true_2 by (subst t; left).
      reflexivity.
    + apply String.eqb_neq in Ht. rewrite IH.
      destruct (decide (origin ∈ rest)) as [Hin|Hout].
      * rewrite !bool_decide_eq_true_2; [reflexivity|by right|done].
      * rewrite !bool_decide_eq_false_2; [reflexivity| |done].
        intros Hin. inversion Hin; subst; contradiction.
Qed.

Lemma Header_Get_Set key value h :
  cors.Header_Get (cors.Header_Set key value h) key = value.
Proof. unfold cors.Header_Get, cors.Header_Set. by rewrite lookup_insert_eq. Qed.

Lemma Header_Get_Set_ne key other value h :
  other <> key ->
  cors.Header_Get (cors.Header_Set key value h) other = cors.Header_Get h other.
Proof.
  intros Hne. unfold cors.Header_Get, cors.Header_Set. by rewrite lookup_insert_ne.
Qed.

(** X18: [enableCORS] allows an origin only when the request names it and
    it is in the trusted list.  Without an [Origin] header, or with one
    that is not trusted, the next handler runs on a response that has
    gained the two [Vary] values and nothing else.  For a trusted origin
    that is not a preflight, the next handler runs with
    [Access-Control-Allow-Origin] set to that origin.  A preflight from a
    trusted origin is answered by the middleware itself: the next handler
    is never called, the three CORS headers are set, and the status is 200
    unless a status had been written before. *)
Theorem enableCORS_allows_only_trusted_origins
    (trustedOrigins : list string) (next : cors.Handler)
    (r : cors.Request) (w : cors.ResponseWriter) :
  let origin := cors.Header_Get (cors.Header r) "Origin" in
  (origin = "" \/ origin ∉ trustedOrigins ->
   cors.enableCORS trustedOrigins next r w = next r (cors.varied w))
  /\ (origin <> "" -> origin ∈ trustedOrigins -> cors.preflight r = false ->
      cors.enableCORS trustedOrigins next r w
      = next r (cors.setHeader "Access-Control-Allow-Origin" origin (cors.varied w)))
  /\ (origin <> "" -> origin ∈ trustedOrigins -> cors.preflight r = true ->
      let w' := cors.enableCORS trustedOrigins next r w in
      (forall other, cors.enableCORS trustedOrigins other r w = w')
      /\ cors.Header_Get (cors.header w') "Access-Control-Allow-Origin" = origin
      /\ cors.Header_Get (cors.header w') "Access-Control-Allow-Methods"
         = "OPTIONS, PUT, PATCH, DELETE"
      /\ cors.Header_Get (cors.header w') "Access-Control-Allow-Headers"
         = "Authorization, Content-Type"
      /\ (cors.status w = None -> cors.status w' = Some http_StatusOK)).
Proof.
  intros origin. split; [|split].
  - intros Hout. rewrite enableCORS_decides. cbv zeta. fold origin.
    destruct Hout as [->|Hout]; [reflexivity|].
    rewrite bool_decide_eq_false_2 by done. by rewrite andb_false_r.
  - intros Hne Hin Hpre. rewrite enableCORS_decides. cbv zeta. fold origin.
    rewrite bool_decide_eq_true_2 by done. apply String.eqb_neq in Hne.
    rewrite Hne, Hpre. reflexivity.
  - intros Hne Hin Hpre w'. subst w'.
    assert (Hrun : forall other, cors.enableCORS trustedOrigins other r w
              = cors.WriteHeader http_StatusOK
                  (cors.setHeader "Access-Control-Allow-Headers" "Authorization, Content-Type"
                     (cors.setHeader "Access-Control-Allow-Methods"
                        "OPTIONS, PUT, PATCH, DELETE"
                        (cors.setHeader "Access-Control-Allow-Origin" origin
                           (cors.varied w))))).
    { intros other. rewrite enableCORS_decides. cbv zeta. fold origin.
      rewrite bool_decide_eq_true_2 by done. apply String.eqb_neq in Hne.
      rewrite Hne, Hpre. reflexivity. }
    split; [intros other; by rewrite !Hrun|]. rewrite Hrun.
    cbn [cors.header cors.status cors.WriteHeader cors.setHeader].
    split; [|split; [|split]].
    + rewrite !Header_Get_Set_ne by discriminate. apply Header_Get_Set.
    + rewrite Header_Get_Set_ne by discriminate. apply Header_Get_Set.
    + apply Header_Get_Set.
    + cbn [cors.varied cors.addHeader cors.status]. intros ->. reflexivity.
Qed.

(** The preflight of [Fixtures.preflightPut] is answered by the
    middleware; the request of [Fixtures.foreignGet] goes on without an
    allowed origin. *)
Example enableCORS_runs :
  let answer (_ : cors.Request) (w : cors.ResponseWriter) := cors.WriteHeader 404 w in
  let run := cors.enableCORS Fixtures.trusted answer in
  cors.status (run Fixtures.preflightPut Fixtures.blank) = Some 200
  /\ cors.status (run Fixtures.foreignGet Fixtures.blank) = Some 404
  /\ cors.header (run Fixtures.foreignGet Fixtures.blank)
       !! "Access-Control-Allow-Origin" = None.
Proof. cbv zeta. repeat split; vm_compute; reflexivity. Qed.

(** ** [data]: passwords *)

(** X19: [ValidatePasswordPlaintext] accepts exactly the passwords of 8 to
    72 bytes, and reports one message for the others: an empty password
    is reported as not provided (not as too short), a shorter one as too
    short, a longer one as too long. *)
Theorem ValidatePasswordPlaintext_reports (password : string) :
  validator.Errors (ValidatePasswordPlaintext validator.New password) !! "password"
  = (if len password =? 0 then Some "must be provided"
     else if len password <? 8 then Some "must be at least 8 bytes long"
     else if 72 <? len password then Some "must not be more than 72 bytes long"
     else None)
  /\ (validator.Valid (ValidatePasswordPlaintext validator.New password) = true
      <-> 8 <= len password <= 72).
Proof.
  split.
  - unfold ValidatePasswordPlaintext, data.Check.
    destruct password as [|c rest]; [reflexivity|].
    set (password := String c rest).
    assert (Hlen : 0 < len password) by (unfold len; cbn; lia).
    change (String.eqb password "") with false. cbn [negb].
    change (validator.Check validator.New true "password" "must be provided")
      with validator.New.
    destruct (Z.eqb_spec (len password) 0) as [|_]; [lia|].
    rewrite Z.geb_leb.
    destruct (Z.leb_spec 8 (len password)) as [Hlong|Hshort];
      destruct (Z.ltb_spec (len password) 8) as [?|?]; try lia.
    + change (validator.Check validator.New true "password"
                "must be at least 8 bytes long") with validator.New.
      destruct (Z.leb_spec (len password) 72) as [?|?];
        destruct (Z.ltb_spec 72 (len password)) as [?|?]; try lia.
      * apply lookup_empty.
      * apply Errors_Check_records, lookup_empty.
    + apply Errors_Check_keeps, Errors_Check_records, lookup_empty.
  - unfold ValidatePasswordPlaintext, data.Check.
    rewrite !Valid_Check, Valid_New. cbn [andb].
    rewrite !andb_true_iff, negb_true_iff, String.eqb_neq, Z.geb_le, Z.leb_le.
    split; [intros [[_ ?] ?]; lia|]. intros [Hlo Hhi]. repeat split; try assumption.
    intros ->. change (len "") with 0 in Hlo. lia.
Qed.

(** ** [readIDParam]: the id of the URL *)

Lemma readIDParam_Ok_iff parsed id :
  readIDParam parsed = Ok id <-> parsed = Ok id /\ 1 <= id.
Proof.
  unfold readIDParam. destruct parsed as [i|err].
  - destruct (Z.ltb_spec i 1).
    + split; [discriminate|]. intros [[= ->] ?]. lia.
    + split; [intros [= ->]; split; [reflexivity|lia]|]. by intros [[= ->] _].
  - split; [discriminate|]. by intros [[=] _].
Qed.

(** X20: the [id] of a movie URL is read as a decimal [int64].  The
    decimal form of every id from 1 to 2^63 - 1 is read back to that id;
    whatever [readIDParam] accepts is in that range; and a parameter it
    does not accept makes [showMovieHandler] and [deleteMovieHandler]
    answer 404 with nothing else done: the table is as before and the
    response is the only event. *)
Theorem readIDParam_reads_decimal_ids :
  (forall id, 1 <= id < 2 ^ 63 ->
     readIDParam (strconv.ParseInt (strconv.FormatInt id) 64) = Ok id)
  /\ (forall text id,
        readIDParam (strconv.ParseInt text 64) = Ok id -> 1 <= id < 2 ^ 63)
  /\ (forall text app fault r w,
        (forall id, readIDParam (strconv.ParseInt text 64) <> Ok id) ->
        let answer := notFoundResponse r w in
        showMovieHandler app (strconv.ParseInt text 64) fault r w = answer
        /\ deleteMovieHandler app (strconv.ParseInt text 64) fault r w = answer
        /\ movies answer = movies w
        /\ trace answer
           = trace w ++ [EvWriteJSON http_StatusNotFound
                           (Message "the requested resource could not be found")]).
Proof.
  split; [|split].
  - intros id Hid. rewrite ParseInt_FormatInt by (change (64 - 1) with 63; lia).
    apply readIDParam_Ok_iff. split; [reflexivity|lia].
  - intros text id Hread. apply readIDParam_Ok_iff in Hread as [Hparse Hpos].
    apply ParseInt_range in Hparse; [|lia]. change (64 - 1) with 63 in Hparse. lia.
  - intros text app fault r w Hbad answer. subst answer.
    unfold showMovieHandler, deleteMovieHandler.
    destruct (readIDParam (strconv.ParseInt text 64)) as [id|err] eqn:Hread.
    + by destruct (Hbad id).
    + done.
Qed.

Example readIDParam_runs :
  readIDParam (strconv.ParseInt "42" 64) = Ok 42
  /\ readIDParam (strconv.ParseInt "0" 64) = Err (ErrOther "invalid id parameter")
  /\ readIDParam (strconv.ParseInt "-7" 64) = Err (ErrOther "invalid id parameter")
  /\ readIDParam (strconv.ParseInt "4x" 64) = Err (ErrOther "invalid id parameter")
  /\ readIDParam (strconv.ParseInt "" 64) = Err (ErrOther "invalid id parameter")
  /\ readIDParam (strconv.ParseInt "9223372036854775808" 64)
     = Err (ErrOther "invalid id parameter").
Proof. repeat split; vm_compute; reflexivity. Qed.
